(** * ghttp: binding service objects to routes, and pooled dispatch

    A shallow embedding of [net/ghttp/ghttp_server_service_multi_object.go]:
    the three binding entry points ([BindMultiObject],
    [BindMultiObjectMethod], [BindMultiObjectRest]), the closure built by
    [callMultiObjectMethods], the pool factory it installs and the
    process-wide registry [serviceMultiObjectCache].

    Go strings are byte strings; the helpers of package [strings] are modelled
    on ASCII, which is what method names and route patterns are made of. *)

From stdpp Require Import base strings list gmap.
From Stdlib Require Import Ascii String.

Open Scope string_scope.
(* [++] is for lists throughout; strings are joined with [+:+]. *)
#[local] Disable Notation "x ++ y" : string_scope.

(** ** Byte-string helpers ([strings], [gstr], [gregex]) *)

Module GoStrings.

Definition isUpper (c : ascii) : bool :=
  let n := nat_of_ascii c in (65 <=? n)%nat && (n <=? 90)%nat.

Definition isLower (c : ascii) : bool :=
  let n := nat_of_ascii c in (97 <=? n)%nat && (n <=? 122)%nat.

Definition isDigit (c : ascii) : bool :=
  let n := nat_of_ascii c in (48 <=? n)%nat && (n <=? 57)%nat.

(** The class [\w] of the regular expressions: [[0-9A-Za-z_]]. *)
Definition isWord (c : ascii) : bool :=
  isUpper c || isLower c || isDigit c || Ascii.eqb c "_".

(** White space as [strings.TrimSpace] sees it on ASCII. *)
Definition isSpace (c : ascii) : bool :=
  let n := nat_of_ascii c in
  (n =? 32)%nat || ((9 <=? n)%nat && (n <=? 13)%nat).

Definition lowerChar (c : ascii) : ascii :=
  if isUpper c then ascii_of_nat (nat_of_ascii c + 32) else c.

Definition upperChar (c : ascii) : ascii :=
  if isLower c then ascii_of_nat (nat_of_ascii c - 32) else c.

Fixpoint mapString (f : ascii -> ascii) (s : string) : string :=
  match s with
  | EmptyString => EmptyString
  | String c r => String (f c) (mapString f r)
  end.

Definition ToLower : string -> string := mapString lowerChar.
Definition ToUpper : string -> string := mapString upperChar.

(** [strings.EqualFold]: equality under case folding. *)
Definition EqualFold (a b : string) : bool := String.eqb (ToLower a) (ToLower b).

Fixpoint trimLeft (s : string) : string :=
  match s with
  | String c r => if isSpace c then trimLeft r else s
  | EmptyString => EmptyString
  end.

Fixpoint trimRight (s : string) : string :=
  match s with
  | EmptyString => EmptyString
  | String c r =>
      match trimRight r with
      | EmptyString => if isSpace c then EmptyString else String c EmptyString
      | r' => String c r'
      end
  end.

Definition TrimSpace (s : string) : string := trimRight (trimLeft s).

(** [strings.Split s sep] for a one-byte separator: the fields between the
    separators, empty fields included. *)
Fixpoint Split (s : string) (sep : ascii) : list string :=
  match s with
  | EmptyString => [EmptyString]
  | String c r =>
      if Ascii.eqb c sep then EmptyString :: Split r sep
      else match Split r sep with
           | f :: fs => String c f :: fs
           | [] => [String c EmptyString]
           end
  end.

(** [strings.LastIndex]: the position of the last occurrence, [None] for the
    [-1] of Go. [i] is the position of the head of [s] in the whole string. *)
Fixpoint lastIndexFrom (needle s : string) (i : nat) : option nat :=
  match s with
  | EmptyString => if String.prefix needle EmptyString then Some i else None
  | String _ r =>
      match lastIndexFrom needle r (S i) with
      | Some j => Some j
      | None => if String.prefix needle s then Some i else None
      end
  end.

Definition LastIndex (s needle : string) : option nat := lastIndexFrom needle s 0.

(** [gstr.PosRI haystack needle]: last occurrence regardless of case; an empty
    haystack has none. *)
Definition PosRI (haystack needle : string) : option nat :=
  match haystack with
  | EmptyString => None
  | _ => LastIndex (ToLower haystack) (ToLower needle)
  end.

(** Go slices [s[i:]] and [s[0:i]]. *)
Definition sliceFrom (i : nat) (s : string) : string :=
  String.substring i (String.length s - i) s.
Definition sliceTo (i : nat) (s : string) : string := String.substring 0 i s.

(** After ["{."]: one or more word bytes, then ["}"]. *)
Fixpoint wordsThenBrace (seen : bool) (s : string) : bool :=
  match s with
  | EmptyString => false
  | String c r =>
      if isWord c then wordsThenBrace true r
      else seen && Ascii.eqb c "}"
  end.

(** [gregex.IsMatchString `\{\.\w+\}` s]: does [s] hold a built-in name
    such as [{.struct}] or [{.method}]? *)
Fixpoint hasBuiltInName (s : string) : bool :=
  match s with
  | EmptyString => false
  | String c r =>
      (Ascii.eqb c "{" &&
       match r with
       | String d r' => Ascii.eqb d "." && wordsThenBrace false r'
       | EmptyString => false
       end)
      || hasBuiltInName r
  end.

End GoStrings.

Import GoStrings.

(** ** Go values, user code and the part of [reflect] the file uses *)

(** A value is a struct (its fields) or a pointer to a cell of the heap.
    User code, hooks and handlers alike, runs on the heap and either returns
    or panics. *)
Inductive value :=
| VStruct (fields : list Z)
| VPtr (addr : nat).

Definition heap := list value.

Inductive uresult :=
| UReturn (h : heap)
| UPanic (e : string) (h : heap).

Record Request := { reqId : nat }.

(** A Go [func( *Request)]. *)
Definition HandlerFunc := Request -> heap -> uresult.

(** The type of a method value: [func( *Request)], or anything else (with the
    text [Type().String()] prints for it). *)
Inductive signature :=
| SigHandler
| SigOther (typ : string).

(** A method of a type; [mBody] takes the receiver the method value is bound
    to. *)
Record method := {
  mName : string;
  mSig : signature;
  mBody : value -> HandlerFunc;
}.

Inductive Kind := KStruct | KPtr | KOther.

(** A named type: a struct, or a named type of a kind that has no element
    type (the kinds array, chan, map and slice, which have one, are left
    out). [tValueMethods] is the method set of [T], [tPtrMethods] that of
    [*T], each in the order [reflect] enumerates it. *)
Record typeInfo := {
  tIsStruct : bool;
  tName : string;
  tPkgPath : string;
  tString : string;
  tValueMethods : list method;
  tPtrMethods : list method;
}.

Inductive rtype :=
| TNamed (i : typeInfo)
| TPtr (elem : rtype).

Definition kindOf (t : rtype) : Kind :=
  match t with
  | TNamed i => if tIsStruct i then KStruct else KOther
  | TPtr _ => KPtr
  end.

(** [t.Elem()]: [None] is the panic "reflect: Elem of invalid type". *)
Definition Elem (t : rtype) : option rtype :=
  match t with
  | TPtr e => Some e
  | TNamed _ => None
  end.

Definition Name (t : rtype) : string :=
  match t with
  | TNamed i => tName i
  | TPtr _ => ""
  end.

Definition PkgPath (t : rtype) : string :=
  match t with
  | TNamed i => tPkgPath i
  | TPtr _ => ""
  end.

Fixpoint typeString (t : rtype) : string :=
  match t with
  | TNamed i => tString i
  | TPtr e => "*" +:+ typeString e
  end.

(** The method set [NumMethod]/[Method(i)] range over. *)
Definition methodsOf (t : rtype) : list method :=
  match t with
  | TNamed i => tValueMethods i
  | TPtr (TNamed i) => tPtrMethods i
  | TPtr (TPtr _) => []
  end.

(** [MethodByName]: [None] is the zero [Value], for which [IsValid] is false. *)
Definition MethodByName (t : rtype) (name : string) : option method :=
  List.find (fun m => String.eqb (mName m) name) (methodsOf t).

(** [x.Interface().(func( *Request))] in its two-result form. *)
Definition asHandler (m : method) (rcv : value) : option HandlerFunc :=
  match mSig m with
  | SigHandler => Some (mBody m rcv)
  | SigOther _ => None
  end.

(** An [interface{}] argument: dynamic type and value. *)
Record Object := { oType : rtype; oValue : value }.

(** The run-time panics the file can raise by itself. *)
Inductive panic :=
| PanicElemOfInvalidType          (* t.Elem() on a type without element *)
| PanicSliceBounds                (* key[0:p] with p = -1 *)
| PanicInterfaceOfZeroValue       (* Interface() on an invalid Value *)
| PanicTypeAssertion (name : string) (* x.(func( *Request)) on another type *)
| PanicNilPool.                       (* a method called on a nil pool *)

(** ** Registration *)

(** The helpers of package [ghttp] the file calls but does not define. The
    development is parametric in them. *)
Class Env := {
  (** [parsePattern pattern]: domain, method and path, or the error. *)
  parsePattern : string -> (string * string * string) + string;
  (** [serveHandlerKey method path domain]. *)
  serveHandlerKey : string -> string -> string -> string;
  (** [mergeBuildInNameToPattern pattern structName methodName allowAppend]. *)
  mergeBuildInNameToPattern : string -> string -> string -> bool -> string;
  (** [methodsMap]: is this upper-case name a recognised HTTP verb? *)
  methodsMap : string -> bool;
  defaultMethod : string;
  (** [objNameOf (t.String()) pkgPath]: the display name [objName] of lines
      181-182 and 191-194, made with [gfile.Basename] and [gstr.Replace]:
      [t.String()] without the package prefix, in parentheses when it starts
      with a star. It goes into diagnostics and item names only. Where it is
      built [t] is a pointer type, whose [String()] starts with a star, so
      the index [objName[0]] of line 192 is in range. *)
  objNameOf : string -> string -> string;
}.

Inductive Level := LFatal | LError | LDebug.

(** What the binding functions hand to the logger. After [Fatal] the source
    has a [return], and that is what is modelled: the diagnostic, then the
    end of the call. *)
Inductive diag :=
| FatalPattern (err : string)
| FatalInvalidMethodName (methodName : string)
| ErrorInvalidRouteMethod (pkgPath objName methodName typ : string)
| DebugIgnoreRouteMethod (pkgPath objName methodName typ : string).

Definition levelOf (d : diag) : Level :=
  match d with
  | FatalPattern _ | FatalInvalidMethodName _ => LFatal
  | ErrorInvalidRouteMethod _ _ _ _ => LError
  | DebugIgnoreRouteMethod _ _ _ _ => LDebug
  end.

(** The method a diagnostic is about, if any. *)
Definition diagMethod (d : diag) : option string :=
  match d with
  | FatalPattern _ => None
  | FatalInvalidMethodName n => Some n
  | ErrorInvalidRouteMethod _ _ n _ | DebugIgnoreRouteMethod _ _ n _ => Some n
  end.

(** The closure [callMultiObjectMethods] returns: it captures the struct
    name computed at registration, the object and the method name. *)
Record dispatcher := {
  dStructName : string;
  dObject : Object;
  dMethod : string;
}.

Inductive handlerType := handlerTypeHandler | handlerTypeObject.

Record handlerItem := {
  itemName : string;
  itemType : handlerType;
  itemFunc : dispatcher;
  middleware : list HandlerFunc;
  source : string;
}.

(** Lines 68-76: [t] is the type of the object as given; [t.Elem()] is
    evaluated before the closure is built. *)
Definition callMultiObjectMethods (object : Object) (methodName : string)
  : panic + dispatcher :=
  match Elem (oType object) with
  | None => inl PanicElemOfInvalidType
  | Some te => inr {| dStructName := Name te; dObject := object; dMethod := methodName |}
  end.

(** How a binding call ends: with the map handed to [bindHandlerByMap], by an
    early [return], or by a panic. The diagnostics emitted come along. *)
Inductive bindResult :=
| Bound (m : gmap string handlerItem) (log : list diag)
| Aborted (log : list diag)
| BindPanic (p : panic) (log : list diag).

(** The state of a registration loop. *)
Inductive loopState :=
| Running (m : gmap string handlerItem) (log : list diag)
| Stopped (p : panic) (log : list diag).

Definition finish (s : loopState) : bindResult :=
  match s with
  | Running m log => Bound m log
  | Stopped p log => BindPanic p log
  end.

(** Lines 166-173: a struct is put behind a pointer for the enumeration; only
    the local [v] and [t] change, [object] stays as it was. *)
Definition wrapStruct (t : rtype) : rtype :=
  match kindOf t with
  | KStruct => TPtr t
  | _ => t
  end.

(** Lines 142-148: the method filter, [None] for the nil map. *)
Definition methodFilter (method : string) : option (list string) :=
  if (0 <? String.length method)%nat
  then Some (map TrimSpace (Split method ","))
  else None.

Definition inFilter (f : option (list string)) (name : string) : bool :=
  match f with
  | None => true
  | Some l => existsb (String.eqb name) l
  end.

(** [len(methodMap) > 0]. *)
Definition filterGiven (f : option (list string)) : bool :=
  match f with
  | Some (_ :: _) => true
  | _ => false
  end.

(** Lines 229-233: the key of the main URI, from the key that ends in
    [/index]; [None] when the key holds no [/index]. *)
Definition indexAlias (key : string) : option string :=
  match PosRI key "/index" with
  | None => None
  | Some p =>
      let k := sliceTo p key +:+ sliceFrom (p + 6) key in
      Some (match k with
            | EmptyString => "/" +:+ k
            | String c _ => if Ascii.eqb c "@" then "/" +:+ k else k
            end)
  end.

Section Binding.
Context `{Env}.

Definition mkItem (pkgPath objName methodName : string) (f : dispatcher)
    (mw : list HandlerFunc) (src : string) : handlerItem :=
  {| itemName := pkgPath +:+ "." +:+ objName +:+ "." +:+ methodName;
     itemType := handlerTypeHandler;
     itemFunc := f;
     middleware := mw;
     source := src |}.

(** One turn of the loop of [doBindMultiObject], lines 183-244. *)
Definition bindObjectStep (pattern structName pkgPath : string) (t : rtype)
    (object : Object) (filter : option (list string))
    (mw : list HandlerFunc) (src : string)
    (mth : method) (m : gmap string handlerItem) (log : list diag) : loopState :=
  let methodName := mName mth in
  if negb (inFilter filter methodName) then Running m log
  else if String.eqb methodName "Init" || String.eqb methodName "Shut" then Running m log
  else
    let objName := objNameOf (typeString t) pkgPath in
    match mSig mth with
    | SigOther typ =>
        if filterGiven filter
        then Running m (log ++ [ErrorInvalidRouteMethod pkgPath objName methodName typ])
        else Running m (log ++ [DebugIgnoreRouteMethod pkgPath objName methodName typ])
    | SigHandler =>
        let key := mergeBuildInNameToPattern pattern structName methodName true in
        match callMultiObjectMethods object methodName with
        | inl p => Stopped p log
        | inr f =>
            let m1 := <[key := mkItem pkgPath objName methodName f mw src]> m in
            if EqualFold methodName "Index" && negb (hasBuiltInName pattern) then
              match indexAlias key with
              | None => Stopped PanicSliceBounds log
              | Some k =>
                  match callMultiObjectMethods object methodName with
                  | inl p => Stopped p log
                  | inr f2 =>
                      Running (<[k := mkItem pkgPath objName methodName f2 mw src]> m1) log
                  end
              end
            else Running m1 log
        end
    end.

Fixpoint runLoop (step : method -> gmap string handlerItem -> list diag -> loopState)
    (ms : list method) (s : loopState) : loopState :=
  match ms with
  | [] => s
  | mth :: rest =>
      match s with
      | Running m log => runLoop step rest (step mth m log)
      | Stopped _ _ => s
      end
  end.

(** Lines 156-158: a pattern whose method is the default one is rebuilt
    without it. *)
Definition effectivePattern (pattern domain method' path : string) : string :=
  if EqualFold method' defaultMethod
  then serveHandlerKey "" path domain else pattern.

(** [doBindMultiObject], lines 137-246. *)
Definition doBindMultiObject (pattern : string) (object : Object) (method : string)
    (mw : list HandlerFunc) (src : string) : bindResult :=
  let filter := methodFilter method in
  match parsePattern pattern with
  | inr err => Aborted [FatalPattern err]
  | inl (domain, method', path) =>
      let pattern := effectivePattern pattern domain method' path in
      let t := wrapStruct (oType object) in
      match Elem t with
      | None => BindPanic PanicElemOfInvalidType []
      | Some te =>
          let structName := Name te in
          let pkgPath := PkgPath te in
          finish (runLoop
                    (bindObjectStep pattern structName pkgPath t object filter mw src)
                    (methodsOf t) (Running ∅ []))
      end
  end.

(** [doBindMultiObjectMethod], lines 248-308. *)
Definition doBindMultiObjectMethod (pattern : string) (object : Object) (method : string)
    (mw : list HandlerFunc) (src : string) : bindResult :=
  let t := wrapStruct (oType object) in
  match Elem t with
  | None => BindPanic PanicElemOfInvalidType []
  | Some te =>
      let structName := Name te in
      let methodName := TrimSpace method in
      match MethodByName t methodName with
      | None => Aborted [FatalInvalidMethodName methodName]
      | Some mth =>
          let pkgPath := PkgPath te in
          let objName := objNameOf (typeString t) pkgPath in
          match mSig mth with
          | SigOther typ =>
              Aborted [ErrorInvalidRouteMethod pkgPath objName methodName typ]
          | SigHandler =>
              let key := mergeBuildInNameToPattern pattern structName methodName false in
              match callMultiObjectMethods object methodName with
              | inl p => BindPanic p []
              | inr f => Bound {[ key := mkItem pkgPath objName methodName f mw src ]} []
              end
          end
      end
  end.

(** One turn of the loop of [doBindMultiObjectRest], lines 337-368. *)
Definition bindRestStep (pattern structName pkgPath : string) (t : rtype)
    (object : Object) (mw : list HandlerFunc) (src : string)
    (mth : method) (m : gmap string handlerItem) (log : list diag) : loopState :=
  let methodName := mName mth in
  if negb (methodsMap (ToUpper methodName)) then Running m log
  else
    let objName := objNameOf (typeString t) pkgPath in
    match mSig mth with
    | SigOther typ =>
        Running m (log ++ [ErrorInvalidRouteMethod pkgPath objName methodName typ])
    | SigHandler =>
        let key :=
          mergeBuildInNameToPattern (methodName +:+ ":" +:+ pattern)
                                    structName methodName false in
        match callMultiObjectMethods object methodName with
        | inl p => Stopped p log
        | inr f => Running (<[key := mkItem pkgPath objName methodName f mw src]> m) log
        end
    end.

Definition doBindMultiObjectRest (pattern : string) (object : Object)
    (mw : list HandlerFunc) (src : string) : bindResult :=
  let t := wrapStruct (oType object) in
  match Elem t with
  | None => BindPanic PanicElemOfInvalidType []
  | Some te =>
      let structName := Name te in
      let pkgPath := PkgPath te in
      finish (runLoop (bindRestStep pattern structName pkgPath t object mw src)
                      (methodsOf t) (Running ∅ []))
  end.

(** The exported entry points, lines 44-66. [method] is the variadic
    argument. *)
Definition bindMethod (method : list string) : string :=
  match method with
  | m0 :: _ => m0
  | [] => ""
  end.

Definition BindMultiObject (pattern : string) (object : Object) (method : list string)
  : bindResult :=
  doBindMultiObject pattern object (bindMethod method) [] "".

Definition BindMultiObjectMethod (pattern : string) (object : Object) (method : string)
  : bindResult :=
  doBindMultiObjectMethod pattern object method [] "".

Definition BindMultiObjectRest (pattern : string) (object : Object) : bindResult :=
  doBindMultiObjectRest pattern object [] "".

(** Modelled from the spec: [bindHandlerByMap], which is not in the file. The
    router map takes every key of the map it is given, and a key already
    there is overwritten (last registration wins). *)
Definition bindHandlerByMap (m routes : gmap string handlerItem)
  : gmap string handlerItem := m ∪ routes.

(** The router map after a binding call: only a call that reaches
    [bindHandlerByMap] changes it. *)
Definition routesAfter (r : bindResult) (routes : gmap string handlerItem)
  : gmap string handlerItem :=
  match r with
  | Bound m _ => bindHandlerByMap m routes
  | Aborted _ | BindPanic _ _ => routes
  end.

End Binding.

(** The diagnostics of a binding call, and whether one of them is fatal. *)
Definition logOf (r : bindResult) : list diag :=
  match r with
  | Bound _ log | Aborted log | BindPanic _ log => log
  end.

Definition isFatal (d : diag) : bool :=
  match levelOf d with
  | LFatal => true
  | _ => false
  end.

Definition hasFatal (r : bindResult) : bool := existsb isFatal (logOf r).

(** ** Dispatch: the closure of [callMultiObjectMethods] at request time *)

Inductive phase :=
| PhaseInit
| PhaseMethod (name : string)
| PhaseShut.

(** [serviceMultiObjectInfo]. [rVal] is a pointer to a cell made by
    [reflect.New(t)] that nothing else refers to; the entry carries the type
    and the content of that cell. [infoId] stands for the address of the
    entry itself. *)
Record serviceMultiObjectInfo := {
  infoId : nat;
  rValType : rtype;
  rValCell : value;
  methods : gmap string HandlerFunc;
  initFunc : option HandlerFunc;
  shutFunc : option HandlerFunc;
}.

(** A [gpool.Pool]: the object its [NewFunc] closure captured, and the idle
    entries, oldest first. *)
Record Pool := {
  poolNew : Object;
  poolIdle : list serviceMultiObjectInfo;
}.

(** What the closure does that can be observed from outside, in order. *)
Inductive event :=
| EvGet (id : nat)
| EvCall (ph : phase) (id : nat) (r : Request)
| EvPut (id : nat).

(** The process: the heap user code works on, the package variable
    [serviceMultiObjectCache] (a map from struct name to a pool, pools being
    referred to by their position in [stPools]), the entries allocated so
    far, the faults reported at the failure boundary, and the trace. *)
Record state := mkState {
  stHeap : heap;
  stCache : gmap string nat;
  stPools : list Pool;
  stNextInfo : nat;
  stReported : list (phase * string);
  stTrace : list event;
}.

(** [init()], lines 33-36. *)
Definition initState (h : heap) : state := mkState h ∅ [] 0 [] [].

Definition setHeap (h : heap) (s : state) : state :=
  mkState h (stCache s) (stPools s) (stNextInfo s) (stReported s) (stTrace s).
Definition setPools (ps : list Pool) (s : state) : state :=
  mkState (stHeap s) (stCache s) ps (stNextInfo s) (stReported s) (stTrace s).
Definition setCache (c : gmap string nat) (s : state) : state :=
  mkState (stHeap s) c (stPools s) (stNextInfo s) (stReported s) (stTrace s).
Definition bumpInfo (s : state) : state :=
  mkState (stHeap s) (stCache s) (stPools s) (S (stNextInfo s)) (stReported s) (stTrace s).
Definition report (ph : phase) (e : string) (s : state) : state :=
  mkState (stHeap s) (stCache s) (stPools s) (stNextInfo s)
          (stReported s ++ [(ph, e)]) (stTrace s).
Definition logEvent (ev : event) (s : state) : state :=
  mkState (stHeap s) (stCache s) (stPools s) (stNextInfo s) (stReported s)
          (stTrace s ++ [ev]).

(** Modelled from the spec: [niceCallFunc], which is not in the file. It is
    the failure boundary of the spec: a panic of the function it runs is
    intercepted and reported as a server-side error, with the hook or method
    that faulted; what the function did to the heap before it panicked stays
    done. The spec leaves open whether the phases after a faulted one still
    run ("not guaranteed"): [resumes] is that choice, for each phase and
    panic value. *)
Class FailureBoundary := {
  resumes : phase -> string -> bool;
}.

(** How a guarded call ends: the closure goes on, or the fault has been
    intercepted and the rest of the closure is skipped. *)
Inductive callResult :=
| Continue (s : state)
| Unwind (s : state).

Definition crState (c : callResult) : state :=
  match c with
  | Continue s | Unwind s => s
  end.

Section Dispatch.
Context `{FailureBoundary}.

Definition niceCallFunc (ph : phase) (f : heap -> uresult) (s : state) : callResult :=
  match f (stHeap s) with
  | UReturn h => Continue (setHeap h s)
  | UPanic e h =>
      let s' := report ph e (setHeap h s) in
      if resumes ph e then Continue s' else Unwind s'
  end.

(** [niceCallFunc(func() { f(r) })], with the call recorded in the trace. *)
Definition callPhase (ph : phase) (id : nat) (r : Request) (f : HandlerFunc)
    (s : state) : callResult :=
  niceCallFunc ph (f r) (logEvent (EvCall ph id r) s).

(** Lines 91-96: [ov.MethodByName(name)], and when it is valid the
    one-result assertion [.Interface().(func( *Request))], which panics on any
    other type. *)
Definition lifecycleHook (t : rtype) (cell : value) (name : string)
  : panic + option HandlerFunc :=
  match MethodByName t name with
  | None => inr None
  | Some m =>
      match asHandler m cell with
      | Some f => inr (Some f)
      | None => inl (PanicTypeAssertion name)
      end
  end.

(** The pool's [NewFunc], lines 81-98. [reflect.New(t)] makes a cell of the
    type of [object] and [ov.Set(v)] stores the value of [object] in it: the
    struct when [object] is a struct, the pointer when it is a pointer. *)
Definition newInfo (object : Object) (id : nat) : panic + serviceMultiObjectInfo :=
  let v := oValue object in
  let t := oType object in
  let cell := v in
  match lifecycleHook t cell "Init" with
  | inl p => inl p
  | inr initF =>
      match lifecycleHook t cell "Shut" with
      | inl p => inl p
      | inr shutF =>
          inr {| infoId := id; rValType := t; rValCell := cell;
                 methods := ∅; initFunc := initF; shutFunc := shutF |}
      end
  end.

Inductive getResult :=
| Got (o : serviceMultiObjectInfo) (s : state)
| GetPanic (p : panic).

(** [pool.Get()]: an idle entry if there is one, else a new one from
    [NewFunc]. (A pool id outside [stPools] is a nil pool; the closure never
    makes one, see [wfState].) *)
Definition poolGet (pid : nat) (s : state) : getResult :=
  match stPools s !! pid with
  | None => GetPanic PanicNilPool
  | Some p =>
      match poolIdle p with
      | o :: rest =>
          Got o (setPools (<[pid := {| poolNew := poolNew p; poolIdle := rest |}]> (stPools s)) s)
      | [] =>
          match newInfo (poolNew p) (stNextInfo s) with
          | inl pn => GetPanic pn
          | inr o => Got o (bumpInfo s)
          end
      end
  end.

(** [pool.Put(o)]. *)
Definition poolPut (pid : nat) (o : serviceMultiObjectInfo) (s : state) : state :=
  match stPools s !! pid with
  | None => s
  | Some p =>
      setPools (<[pid := {| poolNew := poolNew p; poolIdle := poolIdle p ++ [o] |}]> (stPools s)) s
  end.

Definition setMethods (ms : gmap string HandlerFunc) (o : serviceMultiObjectInfo)
  : serviceMultiObjectInfo :=
  {| infoId := infoId o; rValType := rValType o; rValCell := rValCell o;
     methods := ms; initFunc := initFunc o; shutFunc := shutFunc o |}.

Inductive methodResult :=
| Called (o : serviceMultiObjectInfo) (c : callResult)
| MethodPanic (p : panic).

(** Lines 111-125: the cached callable, or the method looked up by name on
    the entry's instance, asserted with the two-result form, cached and
    called. [Interface()] on the zero [Value] of a missing method panics. *)
Definition callTarget (o : serviceMultiObjectInfo) (methodName : string)
    (r : Request) (s : state) : methodResult :=
  match methods o !! methodName with
  | Some itemFunc =>
      Called o (callPhase (PhaseMethod methodName) (infoId o) r itemFunc s)
  | None =>
      match MethodByName (rValType o) methodName with
      | None => MethodPanic PanicInterfaceOfZeroValue
      | Some m =>
          match asHandler m (rValCell o) with
          | Some itemFunc =>
              Called (setMethods (<[methodName := itemFunc]> (methods o)) o)
                     (callPhase (PhaseMethod methodName) (infoId o) r itemFunc s)
          | None => Called o (Continue s)
          end
      end
  end.

(** Lines 105-109 and 127-131: a hook is called when the entry has it. *)
Definition callHook (ph : phase) (hook : option HandlerFunc) (id : nat)
    (r : Request) (s : state) : callResult :=
  match hook with
  | Some f => callPhase ph id r f s
  | None => Continue s
  end.

(** How a run of the closure ends: it returns; or a fault of user code was
    intercepted at the failure boundary and the rest of the closure was
    skipped; or a panic of the closure's own code propagates. *)
Inductive dres :=
| Done (s : state)
| Unwound (s : state)
| Fault (p : panic) (s : state).

Definition stateOf (r : dres) : state :=
  match r with
  | Done s | Unwound s | Fault _ s => s
  end.

(** Line 79: the read of the registry. *)
Definition lookupPool (structName : string) (s : state) : option nat :=
  stCache s !! structName.

(** Lines 81-99: a new pool whose [NewFunc] captures [object], and the write
    of the registry. *)
Definition insertPool (structName : string) (object : Object) (s : state)
  : nat * state :=
  let pid := List.length (stPools s) in
  (pid,
   setCache (<[structName := pid]> (stCache s))
            (setPools (stPools s ++ [{| poolNew := object; poolIdle := [] |}]) s)).

(** Lines 102-103: the entry is borrowed; the trace records it. *)
Definition borrow (pid : nat) (s : state) : getResult :=
  match poolGet pid s with
  | Got o s0 => Got o (logEvent (EvGet (infoId o)) s0)
  | GetPanic p => GetPanic p
  end.

(** Lines 105-133: the three phases on the borrowed entry, and its return to
    the pool. *)
Definition serveWith (d : dispatcher) (r : Request) (pid : nat)
    (o : serviceMultiObjectInfo) (s1 : state) : dres :=
  match callHook PhaseInit (initFunc o) (infoId o) r s1 with
  | Unwind s2 => Unwound s2
  | Continue s2 =>
      match callTarget o (dMethod d) r s2 with
      | MethodPanic p => Fault p s2
      | Called o' (Unwind s3) => Unwound s3
      | Called o' (Continue s3) =>
          match callHook PhaseShut (shutFunc o') (infoId o') r s3 with
          | Unwind s4 => Unwound s4
          | Continue s4 => Done (logEvent (EvPut (infoId o')) (poolPut pid o' s4))
          end
      end
  end.

(** Lines 102-133, once the pool is known. *)
Definition serve (d : dispatcher) (r : Request) (pid : nat) (s : state) : dres :=
  match borrow pid s with
  | GetPanic p => Fault p s
  | Got o s1 => serveWith d r pid o s1
  end.

Definition acquirePool (d : dispatcher) (s : state) : nat * state :=
  match lookupPool (dStructName d) s with
  | Some pid => (pid, s)
  | None => insertPool (dStructName d) (dObject d) s
  end.

(** The closure, lines 77-134, run without interruption. *)
Definition dispatch (d : dispatcher) (r : Request) (s : state) : dres :=
  let '(pid, s0) := acquirePool d s in serve d r pid s0.

(** Requests served one after the other, each closure run without
    interruption. *)
Fixpoint dispatchAll (reqs : list (dispatcher * Request)) (s : state) : state :=
  match reqs with
  | [] => s
  | (d, r) :: rest => dispatchAll rest (stateOf (dispatch d r s))
  end.

(** ** Requests that interleave

    A request is at the read of the registry, at the write that follows a
    failed read, at [pool.Get()] with its pool in hand, at the three phases
    with its entry in hand, or finished. A schedule names the request that
    moves next. *)
Inductive pc :=
| AtLookup
| AtInsert
| AtGet (pid : nat)
| AtCall (pid : nat) (o : serviceMultiObjectInfo)
| Finished.

Record worker := { wRoute : dispatcher; wReq : Request; wPc : pc }.

Definition setPc (p : pc) (w : worker) : worker :=
  {| wRoute := wRoute w; wReq := wReq w; wPc := p |}.

Definition stepWorker (w : worker) (s : state) : worker * state :=
  match wPc w with
  | AtLookup =>
      match lookupPool (dStructName (wRoute w)) s with
      | Some pid => (setPc (AtGet pid) w, s)
      | None => (setPc AtInsert w, s)
      end
  | AtInsert =>
      let '(pid, s') := insertPool (dStructName (wRoute w)) (dObject (wRoute w)) s in
      (setPc (AtGet pid) w, s')
  | AtGet pid =>
      match borrow pid s with
      | Got o s' => (setPc (AtCall pid o) w, s')
      | GetPanic _ => (setPc Finished w, s)
      end
  | AtCall pid o =>
      (setPc Finished w, stateOf (serveWith (wRoute w) (wReq w) pid o s))
  | Finished => (w, s)
  end.

Fixpoint runSchedule (sched : list nat) (ws : list worker) (s : state)
  : list worker * state :=
  match sched with
  | [] => (ws, s)
  | i :: rest =>
      match ws !! i with
      | None => runSchedule rest ws s
      | Some w =>
          let '(w', s') := stepWorker w s in
          runSchedule rest (<[i := w']> ws) s'
      end
  end.

Definition newWorker (d : dispatcher) (r : Request) : worker :=
  {| wRoute := d; wReq := r; wPc := AtLookup |}.

End Dispatch.

(** How many pools [gpool.New] has made so far. *)
Definition poolCount (s : state) : nat := List.length (stPools s).

(** * Vocabulary of the statements *)

Definition conforms (mth : method) : bool :=
  match mSig mth with
  | SigHandler => true
  | SigOther _ => false
  end.

(** The dispatcher a method of a pointer object is registered with. *)
Definition dispatcherOf (object : Object) (te : rtype) (methodName : string)
  : dispatcher :=
  {| dStructName := Name te; dObject := object; dMethod := methodName |}.

(** A method the whole-object loop looks at: it passes the filter and is not
    a lifecycle hook. *)
Definition scanned (filter : option (list string)) (mth : method) : bool :=
  inFilter filter (mName mth)
  && negb (String.eqb (mName mth) "Init" || String.eqb (mName mth) "Shut").

(** The diagnostic of the whole-object loop for a method it looks at and
    whose signature does not match. *)
Definition mismatchDiag (filter : option (list string)) (pkgPath objName : string)
    (mth : method) : list diag :=
  if scanned filter mth then
    match mSig mth with
    | SigHandler => []
    | SigOther typ =>
        if filterGiven filter
        then [ErrorInvalidRouteMethod pkgPath objName (mName mth) typ]
        else [DebugIgnoreRouteMethod pkgPath objName (mName mth) typ]
    end
  else [].

(** Does the loop add the key of the main URI for this method? *)
Definition aliased (pattern : string) (mth : method) : bool :=
  EqualFold (mName mth) "Index" && negb (hasBuiltInName pattern).

(** Is the path of a key empty: nothing at all, or nothing before the
    domain part? (The test of line 231.) *)
Definition emptyPath (k : string) : bool :=
  match k with
  | EmptyString => true
  | String c _ => Ascii.eqb c "@"
  end.

Section Vocabulary.
Context `{Env}.

(** Every method that would get the extra key has a key with [/index] in
    it, so that the slice of line 230 is in range. *)
Definition indexKeysOk (pattern structName : string) (ms : list method) : Prop :=
  forall mth, mth ∈ ms -> aliased pattern mth = true ->
    is_Some (indexAlias (mergeBuildInNameToPattern pattern structName (mName mth) true)).

(** The display name of a pointer to [te]. *)
Definition objNameFor (te : rtype) : string :=
  objNameOf (typeString (TPtr te)) (PkgPath te).

(** The first key of a method in whole-object mode, and the item stored. *)
Definition objectKey (pattern : string) (te : rtype) (mth : method) : string :=
  mergeBuildInNameToPattern pattern (Name te) (mName mth) true.

Definition itemOf (te : rtype) (object : Object) (mw : list HandlerFunc)
    (src : string) (mth : method) : handlerItem :=
  mkItem (PkgPath te) (objNameFor te) (mName mth)
         (dispatcherOf object te (mName mth)) mw src.

(** The keys one turn of the whole-object loop writes. *)
Definition keysWritten (pattern : string) (te : rtype)
    (filter : option (list string)) (mth : method) : list string :=
  if scanned filter mth && conforms mth then
    objectKey pattern te mth ::
    (if aliased pattern mth
     then match indexAlias (objectKey pattern te mth) with
          | Some k => [k]
          | None => []
          end
     else [])
  else [].

(** The key of a method in REST mode, and the keys one turn of the REST loop
    writes. *)
Definition restKey (pattern : string) (te : rtype) (mth : method) : string :=
  mergeBuildInNameToPattern (mName mth +:+ ":" +:+ pattern) (Name te) (mName mth) false.

Definition isVerb (mth : method) : bool := methodsMap (ToUpper (mName mth)).

Definition restWritten (pattern : string) (te : rtype) (mth : method) : list string :=
  if isVerb mth && conforms mth then [restKey pattern te mth] else [].

Definition restDiag (pkgPath objName : string) (mth : method) : list diag :=
  if isVerb mth then
    match mSig mth with
    | SigHandler => []
    | SigOther typ => [ErrorInvalidRouteMethod pkgPath objName (mName mth) typ]
    end
  else [].

End Vocabulary.

(** The calls a hook contributes to the trace. *)
Definition hookEvents (ph : phase) (hook : option HandlerFunc) (id : nat)
    (r : Request) : list event :=
  match hook with
  | Some _ => [EvCall ph id r]
  | None => []
  end.

(** The calls of one run of the closure on the entry [o], when every phase
    runs. *)
Definition phaseCalls (d : dispatcher) (o : serviceMultiObjectInfo) (r : Request)
  : list event :=
  hookEvents PhaseInit (initFunc o) (infoId o) r
  ++ [EvCall (PhaseMethod (dMethod d)) (infoId o) r]
  ++ hookEvents PhaseShut (shutFunc o) (infoId o) r.

(** The method [name] of [t] bound to [cell], when it is a handler. *)
Definition hookOf (t : rtype) (cell : value) (name : string) : option HandlerFunc :=
  match MethodByName t name with
  | Some m => asHandler m cell
  | None => None
  end.

(** [name] is absent from [t], or it has the handler signature. *)
Definition hookConforms (t : rtype) (name : string) : bool :=
  match MethodByName t name with
  | Some m => conforms m
  | None => true
  end.

(** [name] is a method of [t] with the handler signature. *)
Definition methodConforms (t : rtype) (name : string) : bool :=
  match MethodByName t name with
  | Some m => conforms m
  | None => false
  end.

(** A route as the binding functions register it: the target method is a
    handler of the object's type, and the lifecycle hooks of that type, if
    any, are handlers too. *)
Definition servable (d : dispatcher) : bool :=
  methodConforms (oType (dObject d)) (dMethod d)
  && hookConforms (oType (dObject d)) "Init"
  && hookConforms (oType (dObject d)) "Shut".

(** Every pool the registry names exists. *)
Definition wfState (s : state) : Prop :=
  forall name pid, stCache s !! name = Some pid -> pid < List.length (stPools s).

(** An entry as the factory makes it from [object], with a cache that holds
    methods of the entry's instance only. *)
Definition entryOf (object : Object) (o : serviceMultiObjectInfo) : Prop :=
  rValType o = oType object /\
  rValCell o = oValue object /\
  initFunc o = hookOf (oType object) (oValue object) "Init" /\
  shutFunc o = hookOf (oType object) (oValue object) "Shut" /\
  forall n f, methods o !! n = Some f ->
    hookOf (oType object) (oValue object) n = Some f.

(** A pool made for objects of type [t] whose idle entries all come from its
    factory. *)
Definition poolOk (t : rtype) (p : Pool) : Prop :=
  oType (poolNew p) = t /\ Forall (entryOf (poolNew p)) (poolIdle p).

(** The pool registered under the route's struct name, if there is one, was
    made for the route's type. *)
Definition routeReady (d : dispatcher) (s : state) : Prop :=
  forall pid p, stCache s !! dStructName d = Some pid ->
    stPools s !! pid = Some p -> poolOk (oType (dObject d)) p.

(** User code that panics whatever the receiver, the request and the heap. *)
Definition alwaysPanics (body : value -> HandlerFunc) : Prop :=
  forall rcv r h, exists e h', body rcv r h = UPanic e h'.

(** The run ended inside the failure boundary: no panic left the closure
    for the router. *)
Definition contained (res : dres) : bool :=
  match res with
  | Done _ | Unwound _ => true
  | Fault _ _ => false
  end.

(** As many pools have been made as the registry has names. *)
Definition onePoolPerName (s : state) : Prop := poolCount s = size (stCache s).

(** ** Vocabulary of the further statements *)

(** User code that returns whatever the receiver, the request and the heap. *)
Definition neverPanics (body : value -> HandlerFunc) : Prop :=
  forall rcv r h, exists h', body rcv r h = UReturn h'.

(** ** An instance of the helpers, and sample service objects *)

Module Sample.

Fixpoint replaceFrom (old new : string) (skip : nat) (s : string) : string :=
  match s with
  | EmptyString => EmptyString
  | String c r =>
      match skip with
      | S k => replaceFrom old new k r
      | O =>
          if String.prefix old s
          then new +:+ replaceFrom old new (String.length old - 1) r
          else String c (replaceFrom old new 0 r)
      end
  end.

(** [strings.Replace s old new -1] for a non-empty [old]. *)
Definition replaceAll (old new s : string) : string := replaceFrom old new 0 s.

Fixpoint contains (needle s : string) : bool :=
  String.prefix needle s ||
  match s with
  | EmptyString => false
  | String _ r => contains needle r
  end.

(** The text before and after the first [sep]. *)
Fixpoint cut (sep : ascii) (s : string) : option (string * string) :=
  match s with
  | EmptyString => None
  | String c r =>
      if Ascii.eqb c sep then Some (EmptyString, r)
      else match cut sep r with
           | Some (a, b) => Some (String c a, b)
           | None => None
           end
  end.

Fixpoint allLetters (s : string) : bool :=
  match s with
  | EmptyString => true
  | String c r => (isUpper c || isLower c) && allLetters r
  end.

Fixpoint trimSlashes (s : string) : string :=
  match s with
  | EmptyString => EmptyString
  | String c r =>
      match trimSlashes r with
      | EmptyString => if Ascii.eqb c "/" then EmptyString else String c EmptyString
      | r' => String c r'
      end
  end.

(** Modelled from the spec: [parsePattern], which is not in the file. A
    pattern combines an optional HTTP method, a path and an optional domain,
    written [METHOD:path@domain]; without a method the wildcard is meant, and
    parsing fails when no path is left. *)
Definition parsePatternModel (pattern : string) : (string * string * string) + string :=
  let '(method, rest) :=
    match cut ":" pattern with
    | Some (m, r) =>
        if allLetters m && (0 <? String.length m)%nat && (0 <? String.length r)%nat
        then (TrimSpace m, TrimSpace r) else ("ALL", TrimSpace pattern)
    | None => ("ALL", TrimSpace pattern)
    end in
  let '(path, domain) :=
    match cut "@" rest with
    | Some (p, d) =>
        if (0 <? String.length p)%nat && (0 <? String.length d)%nat
        then (TrimSpace p, TrimSpace d) else (rest, "default")
    | None => (rest, "default")
    end in
  match path with
  | EmptyString => inr "invalid pattern: URI should not be empty"
  | _ => inl (domain, method, path)
  end.

(** Modelled from the spec: [serveHandlerKey], which is not in the file. The
    route key combines HTTP method, path and domain. *)
Definition serveHandlerKeyModel (method path domain : string) : string :=
  let d := match domain with EmptyString => "" | _ => "@" +:+ ToLower domain end in
  match method with
  | EmptyString => path +:+ d
  | _ => ToUpper method +:+ ":" +:+ path +:+ d
  end.

(** Modelled from the spec: [mergeBuildInNameToPattern], which is not in the
    file. Built-in names already in the pattern are filled in; otherwise,
    when appending is allowed, the case-normalised method name is appended to
    the path, as in the spec's testable properties 1 and 2 ([/test] and [Foo]
    give [/test/foo]). *)
Definition mergeBuildInNameToPatternModel (pattern structName methodName : string)
    (allowAppend : bool) : string :=
  let pattern := replaceAll "{.struct}" (ToLower structName) pattern in
  if contains "{.method}" pattern
  then replaceAll "{.method}" (ToLower methodName) pattern
  else if negb allowAppend then pattern
  else match cut "@" pattern with
       | Some (uri, dom) => trimSlashes uri +:+ "/" +:+ ToLower methodName +:+ "@" +:+ dom
       | None => trimSlashes pattern +:+ "/" +:+ ToLower methodName
       end.

(** Modelled from the spec: the table [methodsMap], which is not in the file;
    the verbs are the ones the spec names. *)
Definition methodsMapModel (upper : string) : bool :=
  existsb (String.eqb upper) ["GET"; "POST"; "PUT"; "DELETE"; "PATCH"].

Fixpoint basename (s : string) : string :=
  match s with
  | EmptyString => EmptyString
  | String c r =>
      if contains "/" r then basename r
      else if Ascii.eqb c "/" then r else s
  end.

(** [objName], lines 181-182 and 191-194. *)
Definition objNameOfModel (typeStr pkgPath : string) : string :=
  let o := replaceAll (basename pkgPath +:+ ".") "" typeStr in
  match o with
  | String "*" _ => "(" +:+ o +:+ ")"
  | _ => o
  end.

#[export] Instance env : Env := {|
  parsePattern := parsePatternModel;
  serveHandlerKey := serveHandlerKeyModel;
  mergeBuildInNameToPattern := mergeBuildInNameToPatternModel;
  methodsMap := methodsMapModel;
  defaultMethod := "ALL";
  objNameOf := objNameOfModel;
|}.

(** The failure boundary that lets the closure go on after a fault. *)
#[export] Instance boundary : FailureBoundary := {| resumes := fun _ _ => true |}.

(** The failure boundary that ends the request at the first fault. *)
Definition strictBoundary : FailureBoundary := {| resumes := fun _ _ => false |}.

(** A handler that does nothing, one that panics, and one that adds one to
    the first field of the struct its receiver points to. *)
Definition nop : value -> HandlerFunc := fun _ _ h => UReturn h.
Definition boom : value -> HandlerFunc := fun _ _ h => UPanic "boom" h.
Definition inc : value -> HandlerFunc := fun rcv _ h =>
  match rcv with
  | VPtr a =>
      match h !! a with
      | Some (VStruct (n :: fs)) => UReturn (<[a := VStruct ((n + 1)%Z :: fs)]> h)
      | _ => UPanic "nil pointer dereference" h
      end
  | VStruct _ => UReturn h
  end.

Definition meth (name : string) (sg : signature) (body : value -> HandlerFunc) : method :=
  {| mName := name; mSig := sg; mBody := body |}.

(** [type User struct{ n int }] of package [app/controller], with pointer
    receivers throughout. *)
Definition userInfo (ms : list method) : typeInfo :=
  {| tIsStruct := true; tName := "User"; tPkgPath := "app/controller";
     tString := "controller.User"; tValueMethods := []; tPtrMethods := ms |}.

Definition userMethods : list method :=
  [ meth "Bad" (SigOther "func()") nop;
    meth "Get" SigHandler nop;
    meth "Inc" SigHandler inc;
    meth "Index" SigHandler nop;
    meth "Init" SigHandler nop;
    meth "Post" SigHandler nop;
    meth "Shut" SigHandler nop ].

(** [&User{}] living at address 0, and [User{}] passed by value. *)
Definition userT : rtype := TNamed (userInfo userMethods).
Definition userPtr : Object := {| oType := TPtr userT; oValue := VPtr 0 |}.
Definition userVal : Object := {| oType := userT; oValue := VStruct [0%Z] |}.

(** A type whose [Init] takes no request. *)
Definition oddInitT : rtype :=
  TNamed (userInfo [meth "Get" SigHandler nop; meth "Init" (SigOther "func()") nop]).
Definition oddInitPtr : Object := {| oType := TPtr oddInitT; oValue := VPtr 0 |}.

(** A type whose handler panics. *)
Definition boomT : rtype :=
  TNamed (userInfo [meth "Get" SigHandler boom; meth "Init" SigHandler nop;
                    meth "Shut" SigHandler nop]).
Definition boomPtr : Object := {| oType := TPtr boomT; oValue := VPtr 0 |}.

(** Another [User], of package [app/admin], with one handler [List]. *)
Definition adminUserT : rtype :=
  TNamed {| tIsStruct := true; tName := "User"; tPkgPath := "app/admin";
            tString := "admin.User"; tValueMethods := [];
            tPtrMethods := [meth "List" SigHandler nop] |}.
Definition adminUserPtr : Object := {| oType := TPtr adminUserT; oValue := VPtr 1 |}.

Definition heap0 : heap := [VStruct [0%Z]].
Definition req (n : nat) : Request := {| reqId := n |}.

(** Modelled from the spec: [mergeBuildInNameToPattern] once more, with
    another case normalisation of the names: word by word, in lower case with
    a hyphen before each inner capital ([ShowName] gives [show-name]). *)
Fixpoint hyphenate (inner : bool) (s : string) : string :=
  match s with
  | EmptyString => EmptyString
  | String c r =>
      if isUpper c
      then (if inner then "-" else "") +:+ String (lowerChar c) (hyphenate true r)
      else String c (hyphenate true r)
  end.

Definition mergeHyphenModel (pattern structName methodName : string)
    (allowAppend : bool) : string :=
  let pattern := replaceAll "{.struct}" (hyphenate false structName) pattern in
  if contains "{.method}" pattern
  then replaceAll "{.method}" (hyphenate false methodName) pattern
  else if negb allowAppend then pattern
  else match cut "@" pattern with
       | Some (uri, dom) =>
           trimSlashes uri +:+ "/" +:+ hyphenate false methodName +:+ "@" +:+ dom
       | None => trimSlashes pattern +:+ "/" +:+ hyphenate false methodName
       end.

Definition hyphenEnv : Env := {|
  parsePattern := parsePatternModel;
  serveHandlerKey := serveHandlerKeyModel;
  mergeBuildInNameToPattern := mergeHyphenModel;
  methodsMap := methodsMapModel;
  defaultMethod := "ALL";
  objNameOf := objNameOfModel;
|}.

(** A type whose handler is named [INDEX]. *)
Definition shoutT : rtype :=
  TNamed (userInfo [meth "Get" SigHandler nop; meth "INDEX" SigHandler nop]).
Definition shoutPtr : Object := {| oType := TPtr shoutT; oValue := VPtr 0 |}.

End Sample.

(** * Properties of registration *)

(** ** A registration loop whose turns write known keys *)

Section LoopFacts.
Variable step : method -> gmap string handlerItem -> list diag -> loopState.
Variable written : method -> list string.
Variable itemFor : method -> handlerItem.
Hypothesis step_lookup : forall mth m log m' log' k,
  step mth m log = Running m' log' ->
  m' !! k = if bool_decide (k ∈ written mth) then Some (itemFor mth) else m !! k.
Hypothesis itemFor_name : forall x y, mName x = mName y -> itemFor x = itemFor y.

Lemma runLoop_stopped ms p log : runLoop step ms (Stopped p log) = Stopped p log.
Proof. destruct ms; reflexivity. Qed.

(** A key written during the loop is there at the end. *)
Lemma loop_keeps_keys ms : forall m log m' log' k,
  runLoop step ms (Running m log) = Running m' log' ->
  is_Some (m !! k) -> is_Some (m' !! k).
Proof.
  induction ms as [|mth ms IH]; intros m log m' log' k; simpl.
  - intros [= <- <-]. done.
  - destruct (step mth m log) as [m1 log1|p1 log1] eqn:Hst.
    + intros Hrun Hk. apply (IH _ _ _ _ _ Hrun).
      rewrite (step_lookup _ _ _ _ _ k Hst). by case_bool_decide.
    + by rewrite runLoop_stopped.
Qed.

Lemma loop_registers ms : forall m log m' log' mth k,
  runLoop step ms (Running m log) = Running m' log' ->
  mth ∈ ms -> k ∈ written mth -> is_Some (m' !! k).
Proof.
  induction ms as [|x ms IH]; intros m log m' log' mth k; simpl.
  - intros _ Hin. by apply elem_of_nil in Hin.
  - destruct (step x m log) as [m1 log1|p1 log1] eqn:Hst.
    2:{ by rewrite runLoop_stopped. }
    intros Hrun Hin Hk. apply elem_of_cons in Hin as [->|Hin].
    + apply (loop_keeps_keys _ _ _ _ _ _ Hrun).
      rewrite (step_lookup _ _ _ _ _ k Hst). by rewrite bool_decide_eq_true_2.
    + exact (IH _ _ _ _ _ _ Hrun Hin Hk).
Qed.

(** Every item of the final map was there at the start or was written for a
    method of the list. *)
Lemma loop_items ms : forall m log m' log' k it,
  runLoop step ms (Running m log) = Running m' log' ->
  m' !! k = Some it ->
  m !! k = Some it \/
  exists mth, mth ∈ ms /\ k ∈ written mth /\ it = itemFor mth.
Proof.
  induction ms as [|x ms IH]; intros m log m' log' k it; simpl.
  - intros [= <- <-] Hk. by left.
  - destruct (step x m log) as [m1 log1|p1 log1] eqn:Hst.
    2:{ by rewrite runLoop_stopped. }
    intros Hrun Hk. destruct (IH _ _ _ _ _ _ Hrun Hk) as [Hm1|(mth & Hin & Hw & ->)].
    + rewrite (step_lookup _ _ _ _ _ k Hst) in Hm1. case_bool_decide.
      * right. exists x. split; [by left|]. split; [done|]. congruence.
      * by left.
    + right. exists mth. split; [by right|]. done.
Qed.

(** A key that only methods of one name write holds the item of that name
    once such a method has been bound. *)
Lemma loop_same_item_gen mth k ms : forall m log m' log',
  runLoop step ms (Running m log) = Running m' log' ->
  k ∈ written mth ->
  (forall x, x ∈ ms -> k ∈ written x -> mName x = mName mth) ->
  (m !! k = Some (itemFor mth) \/ mth ∈ ms) ->
  m' !! k = Some (itemFor mth).
Proof.
  induction ms as [|x ms IH]; intros m log m' log'; simpl.
  - intros [= <- <-] _ _ [?|Hin]; [done|]. by apply elem_of_nil in Hin.
  - destruct (step x m log) as [m1 log1|p1 log1] eqn:Hst.
    2:{ by rewrite runLoop_stopped. }
    intros Hrun Hk Honly Hor. apply (IH _ _ _ _ Hrun Hk).
    { intros y Hy. apply Honly. by right. }
    rewrite (step_lookup _ _ _ _ _ k Hst).
    case_bool_decide as Hw.
    + left. f_equal. apply itemFor_name. apply Honly; [by left|done].
    + destruct Hor as [?|Hin]; [by left|].
      apply elem_of_cons in Hin as [->|Hin]; [|by right].
      exfalso. by apply Hw.
Qed.

End LoopFacts.

Section BindingFacts.
Context `{Env}.

Lemma callMultiObjectMethods_ptr object te methodName :
  oType object = TPtr te ->
  callMultiObjectMethods object methodName = inr (dispatcherOf object te methodName).
Proof. intros Ht. unfold callMultiObjectMethods. rewrite Ht. reflexivity. Qed.

Lemma callMultiObjectMethods_named object i methodName :
  oType object = TNamed i ->
  callMultiObjectMethods object methodName = inl PanicElemOfInvalidType.
Proof. intros Ht. unfold callMultiObjectMethods. rewrite Ht. reflexivity. Qed.

Lemma itemOf_name te object mw src x y :
  mName x = mName y -> itemOf te object mw src x = itemOf te object mw src y.
Proof. unfold itemOf. by intros ->. Qed.

Section PointerObject.
Variables (pattern : string) (te : rtype) (object : Object).
Variables (filter : option (list string)) (mw : list HandlerFunc) (src : string).
Hypothesis Hptr : oType object = TPtr te.

Local Abbreviation pkgPath := (PkgPath te).
Local Abbreviation objName := (objNameFor te).
Local Abbreviation step :=
  (bindObjectStep pattern (Name te) (PkgPath te) (TPtr te) object filter mw src).
Local Abbreviation rstep :=
  (bindRestStep pattern (Name te) (PkgPath te) (TPtr te) object mw src).

(** The body of the whole-object loop for a pointer object, by cases. *)
Lemma step_cases mth m log :
  step mth m log =
    if negb (scanned filter mth) then Running m log
    else if conforms mth then
      if aliased pattern mth then
        match indexAlias (objectKey pattern te mth) with
        | None => Stopped PanicSliceBounds log
        | Some k =>
            Running (<[k := itemOf te object mw src mth]>
                       (<[objectKey pattern te mth := itemOf te object mw src mth]> m)) log
        end
      else Running (<[objectKey pattern te mth := itemOf te object mw src mth]> m) log
    else Running m (log ++ mismatchDiag filter pkgPath objName mth).
Proof.
  unfold bindObjectStep, scanned, mismatchDiag, conforms, aliased, scanned.
  destruct (inFilter filter (mName mth)); simpl; [|reflexivity].
  destruct (String.eqb (mName mth) "Init" || String.eqb (mName mth) "Shut");
    simpl; [reflexivity|].
  destruct (mSig mth) as [|typ]; simpl.
  - rewrite (callMultiObjectMethods_ptr _ _ _ Hptr).
    destruct (EqualFold (mName mth) "Index" && negb (hasBuiltInName pattern));
      [|reflexivity].
    unfold objectKey. destruct (indexAlias _); reflexivity.
  - destruct (filterGiven filter); reflexivity.
Qed.

(** The loop runs to its end, and the diagnostics are those of the methods
    with a mismatching signature, in order. *)
Lemma loop_runs ms : indexKeysOk pattern (Name te) ms ->
  forall m log, exists m',
    runLoop step ms (Running m log)
    = Running m' (log ++ flat_map (mismatchDiag filter pkgPath objName) ms).
Proof.
  induction ms as [|mth ms IH]; intros Hok m log; simpl.
  - exists m. by rewrite app_nil_r.
  - assert (Hok' : indexKeysOk pattern (Name te) ms).
    { intros x Hx. apply Hok. by right. }
    rewrite step_cases.
    destruct (scanned filter mth) eqn:Hs; simpl.
    + destruct (conforms mth) eqn:Hc.
      * assert (Hd : mismatchDiag filter pkgPath objName mth = []).
        { unfold mismatchDiag. rewrite Hs. unfold conforms in Hc.
          destruct (mSig mth); [reflexivity|discriminate]. }
        rewrite Hd. simpl.
        destruct (aliased pattern mth) eqn:Ha.
        -- destruct (Hok mth (ltac:(by left)) Ha) as [k Hk].
           fold (objectKey pattern te mth) in Hk. rewrite Hk. apply (IH Hok').
        -- apply (IH Hok').
      * destruct (IH Hok' m (log ++ mismatchDiag filter pkgPath objName mth)%list)
          as [m' Hm'].
        exists m'. rewrite Hm'. by rewrite <- app_assoc.
    + assert (Hd : mismatchDiag filter pkgPath objName mth = []).
      { unfold mismatchDiag. by rewrite Hs. }
      rewrite Hd. apply (IH Hok').
Qed.

Lemma step_lookup mth m log m' log' k :
  step mth m log = Running m' log' ->
  m' !! k = if bool_decide (k ∈ keysWritten pattern te filter mth)
            then Some (itemOf te object mw src mth) else m !! k.
Proof.
  rewrite step_cases. unfold keysWritten.
  destruct (scanned filter mth); simpl.
  2:{ intros [= <- <-]. reflexivity. }
  destruct (conforms mth); simpl.
  2:{ intros [= <- <-]. reflexivity. }
  destruct (aliased pattern mth).
  - destruct (indexAlias (objectKey pattern te mth)) as [a|]; [|discriminate].
    intros [= <- <-].
    destruct (decide (k = a)) as [->|Hka].
    + rewrite lookup_insert_eq. rewrite bool_decide_eq_true_2; [done|].
      right. by left.
    + rewrite lookup_insert_ne by done.
      destruct (decide (k = objectKey pattern te mth)) as [->|Hkk].
      * rewrite lookup_insert_eq. rewrite bool_decide_eq_true_2; [done|]. by left.
      * rewrite lookup_insert_ne by done.
        rewrite bool_decide_eq_false_2; [done|].
        intros Hin. apply elem_of_cons in Hin as [?|Hin]; [done|].
        apply elem_of_cons in Hin as [?|Hin]; [done|]. by apply elem_of_nil in Hin.
  - intros [= <- <-].
    destruct (decide (k = objectKey pattern te mth)) as [->|Hkk].
    + rewrite lookup_insert_eq. rewrite bool_decide_eq_true_2; [done|]. by left.
    + rewrite lookup_insert_ne by done.
      rewrite bool_decide_eq_false_2; [done|].
      intros Hin. apply elem_of_cons in Hin as [?|Hin]; [done|].
      by apply elem_of_nil in Hin.
Qed.

(** The body of the REST loop for a pointer object, by cases. *)
Lemma rest_step_cases mth m log :
  rstep mth m log =
    if negb (isVerb mth) then Running m log
    else if conforms mth
    then Running (<[restKey pattern te mth := itemOf te object mw src mth]> m) log
    else Running m (log ++ restDiag pkgPath objName mth).
Proof.
  unfold bindRestStep, isVerb, restDiag, conforms, isVerb.
  destruct (methodsMap (ToUpper (mName mth))); simpl; [|reflexivity].
  destruct (mSig mth) as [|typ]; simpl; [|reflexivity].
  by rewrite (callMultiObjectMethods_ptr _ _ _ Hptr).
Qed.

Lemma rest_loop_runs ms : forall m log, exists m',
  runLoop rstep ms (Running m log)
  = Running m' (log ++ flat_map (restDiag pkgPath objName) ms).
Proof.
  induction ms as [|mth ms IH]; intros m log; simpl.
  - exists m. by rewrite app_nil_r.
  - rewrite rest_step_cases. unfold restDiag at 2.
    destruct (isVerb mth) eqn:Hv; simpl; [|apply IH].
    destruct (conforms mth) eqn:Hc.
    + unfold conforms in Hc. destruct (mSig mth); [|discriminate]. apply IH.
    + destruct (IH m (log ++ restDiag pkgPath objName mth)%list) as [m' Hm'].
      exists m'. rewrite Hm'. rewrite <- app_assoc. do 2 f_equal.
      unfold restDiag. rewrite Hv. unfold conforms in Hc.
      destruct (mSig mth); [discriminate|reflexivity].
Qed.

Lemma rest_step_lookup mth m log m' log' k :
  rstep mth m log = Running m' log' ->
  m' !! k = if bool_decide (k ∈ restWritten pattern te mth)
            then Some (itemOf te object mw src mth) else m !! k.
Proof.
  rewrite rest_step_cases. unfold restWritten.
  destruct (isVerb mth); simpl.
  2:{ intros [= <- <-]. reflexivity. }
  destruct (conforms mth); simpl.
  2:{ intros [= <- <-]. reflexivity. }
  intros [= <- <-].
  destruct (decide (k = restKey pattern te mth)) as [->|Hkk].
  - rewrite lookup_insert_eq. rewrite bool_decide_eq_true_2; [done|]. by left.
  - rewrite lookup_insert_ne by done.
    rewrite bool_decide_eq_false_2; [done|].
    intros Hin. apply elem_of_cons in Hin as [?|Hin]; [done|].
    by apply elem_of_nil in Hin.
Qed.

End PointerObject.

(** For a struct passed by value, the first method that reaches registration
    stops the loop: [callMultiObjectMethods] gets the struct itself. *)
Lemma loop_stops_at_first step ms (P : method -> bool) :
  (forall mth m log, P mth = false -> exists log', step mth m log = Running m log') ->
  (forall mth m log, P mth = true -> step mth m log = Stopped PanicElemOfInvalidType log) ->
  forall m log, (exists mth, mth ∈ ms /\ P mth = true) ->
  exists log', runLoop step ms (Running m log) = Stopped PanicElemOfInvalidType log'.
Proof.
  intros Hskip Hstop.
  induction ms as [|x ms IH]; intros m log [mth [Hin HP]].
  - by apply elem_of_nil in Hin.
  - simpl. destruct (P x) eqn:Hx.
    + rewrite (Hstop _ _ _ Hx). rewrite runLoop_stopped. eauto.
    + destruct (Hskip x m log Hx) as [log' ->].
      apply IH. apply elem_of_cons in Hin as [->|Hin]; [congruence|eauto].
Qed.

End BindingFacts.

(** ** The three binding modes *)

Section BindingTheorems.
Context `{Env}.

Lemma Split_nonempty s sep : Split s sep <> [].
Proof.
  induction s as [|c r IH]; simpl; [done|].
  destruct (Ascii.eqb c sep); [done|]. by destruct (Split r sep).
Qed.

(** A filter is in force exactly when the caller named methods. *)
Lemma filterGiven_methodFilter method :
  filterGiven (methodFilter method) = (0 <? String.length method)%nat.
Proof.
  unfold methodFilter. destruct (0 <? String.length method)%nat; [|reflexivity].
  simpl. pose proof (Split_nonempty method ",") as Hne.
  by destruct (Split method ",").
Qed.

Lemma wrapStruct_ptr te : wrapStruct (TPtr te) = TPtr te.
Proof. reflexivity. Qed.

(** Whole-object mode on a pointer object whose pattern parses: the call
    reaches [bindHandlerByMap], with the map the loop built. *)
Lemma doBindMultiObject_ptr pattern object method mw src te domain method' path :
  oType object = TPtr te ->
  parsePattern pattern = inl (domain, method', path) ->
  doBindMultiObject pattern object method mw src =
    finish (runLoop
              (bindObjectStep (effectivePattern pattern domain method' path)
                 (Name te) (PkgPath te) (TPtr te) object (methodFilter method) mw src)
              (methodsOf (TPtr te)) (Running ∅ [])).
Proof.
  intros Ht Hp. unfold doBindMultiObject. rewrite Hp, Ht. reflexivity.
Qed.

Lemma doBindMultiObjectRest_ptr pattern object mw src te :
  oType object = TPtr te ->
  doBindMultiObjectRest pattern object mw src =
    finish (runLoop
              (bindRestStep pattern (Name te) (PkgPath te) (TPtr te) object mw src)
              (methodsOf (TPtr te)) (Running ∅ [])).
Proof. intros Ht. unfold doBindMultiObjectRest. rewrite Ht. reflexivity. Qed.

Lemma scanned_conforms_written pattern te filter mth :
  scanned filter mth = true -> conforms mth = true ->
  objectKey pattern te mth ∈ keysWritten pattern te filter mth.
Proof. intros Hs Hc. unfold keysWritten. rewrite Hs, Hc. simpl. by left. Qed.

Lemma written_scanned_conforms pattern te filter mth k :
  k ∈ keysWritten pattern te filter mth ->
  scanned filter mth = true /\ conforms mth = true.
Proof.
  unfold keysWritten. destruct (scanned filter mth), (conforms mth); simpl;
    intros Hin; try by apply elem_of_nil in Hin. done.
Qed.

Lemma mismatchDiag_level filter pkgPath objName mth d :
  d ∈ mismatchDiag filter pkgPath objName mth ->
  diagMethod d = Some (mName mth) /\
  levelOf d = (if filterGiven filter then LError else LDebug) /\
  scanned filter mth = true /\ conforms mth = false.
Proof.
  unfold mismatchDiag, conforms. destruct (scanned filter mth); [|by intros ?%elem_of_nil].
  destruct (mSig mth) as [|typ]; [by intros ?%elem_of_nil|].
  destruct (filterGiven filter); intros ->%list_elem_of_singleton; done.
Qed.

Lemma mismatchDiag_present filter pkgPath objName mth :
  scanned filter mth = true -> conforms mth = false ->
  exists d, mismatchDiag filter pkgPath objName mth = [d].
Proof.
  unfold mismatchDiag, conforms. intros ->. destruct (mSig mth); [done|].
  destruct (filterGiven filter); eauto.
Qed.

Lemma elem_of_flat_map {A B} (f : A -> list B) (l : list A) (y : B) :
  y ∈ flat_map f l <-> exists x, x ∈ l /\ y ∈ f x.
Proof.
  rewrite list_elem_of_In, in_flat_map. split.
  - intros (x & Hx & Hy). exists x. by rewrite !list_elem_of_In.
  - intros (x & Hx & Hy). exists x. by rewrite <- !list_elem_of_In.
Qed.

(** C4, as amended. Whole-object mode on a pointer object: a scanned method
    whose signature does not match gets an error-level diagnostic when the
    caller named methods and a debug-level one in an unrestricted scan, never
    a fatal one; it is not registered; the enumeration goes on to its end and
    every scanned method with a matching signature is registered. *)
Theorem whole_object_signature_mismatch
    pattern object method mw src te domain method' path :
  oType object = TPtr te ->
  parsePattern pattern = inl (domain, method', path) ->
  indexKeysOk (effectivePattern pattern domain method' path) (Name te)
              (methodsOf (TPtr te)) ->
  exists m log,
    doBindMultiObject pattern object method mw src = Bound m log /\
    (forall mth, mth ∈ methodsOf (TPtr te) ->
       scanned (methodFilter method) mth = true -> conforms mth = false ->
       exists d, d ∈ log /\ diagMethod d = Some (mName mth) /\
         levelOf d = (if (0 <? String.length method)%nat then LError else LDebug)) /\
    (forall d, d ∈ log -> levelOf d <> LFatal) /\
    (forall k it, m !! k = Some it ->
       exists mth, mth ∈ methodsOf (TPtr te) /\
         scanned (methodFilter method) mth = true /\ conforms mth = true /\
         dMethod (itemFunc it) = mName mth) /\
    (forall mth, mth ∈ methodsOf (TPtr te) ->
       scanned (methodFilter method) mth = true -> conforms mth = true ->
       is_Some (m !! objectKey (effectivePattern pattern domain method' path) te mth)).
Proof.
  intros Ht Hp Hok.
  rewrite (doBindMultiObject_ptr _ _ _ _ _ _ _ _ _ Ht Hp).
  set (pat := effectivePattern pattern domain method' path) in *.
  set (filter := methodFilter method).
  destruct (loop_runs pat te object filter mw src Ht _ Hok ∅ []) as [m Hrun].
  rewrite Hrun. simpl. eexists _, _. split; [reflexivity|].
  pose proof (step_lookup pat te object filter mw src Ht) as Hlk.
  split; [|split; [|split]].
  - intros mth Hin Hs Hc.
    destruct (mismatchDiag_present filter (PkgPath te)
                (objNameFor te) mth Hs Hc) as [d Hd].
    assert (Hdin : d ∈ mismatchDiag filter (PkgPath te) (objNameFor te) mth).
    { rewrite Hd. by left. }
    exists d. split.
    + apply elem_of_flat_map. eauto.
    + apply mismatchDiag_level in Hdin as (Hm & Hl & _).
      split; [done|]. rewrite Hl. unfold filter.
      by rewrite filterGiven_methodFilter.
  - intros d (mth & _ & Hd)%elem_of_flat_map.
    apply mismatchDiag_level in Hd as (_ & Hl & _). rewrite Hl.
    by destruct (filterGiven filter).
  - intros k it Hk.
    destruct (loop_items _ _ _ Hlk _ _ _ _ _ _ _ Hrun Hk) as [He|(mth & Hin & Hw & ->)].
    + by rewrite lookup_empty in He.
    + apply written_scanned_conforms in Hw as [Hs Hc]. exists mth. done.
  - intros mth Hin Hs Hc.
    eapply (loop_registers _ _ _ Hlk _ _ _ _ _ _ _ Hrun Hin).
    by apply scanned_conforms_written.
Qed.

Lemma indexAlias_Some key a :
  indexAlias key = Some a ->
  exists p, PosRI key "/index" = Some p /\
    a = (let stripped := sliceTo p key +:+ sliceFrom (p + 6) key in
         if emptyPath stripped then "/" +:+ stripped else stripped).
Proof.
  unfold indexAlias. destruct (PosRI key "/index") as [p|]; [|discriminate].
  intros [= <-]. exists p. split; [reflexivity|]. simpl.
  by destruct (sliceTo p key +:+ sliceFrom (p + 6) key).
Qed.

(** C5. Whole-object mode on a pointer object with a conforming method named
    [Index] that passes the filter. When the pattern holds no built-in name,
    the call registers the first key and a second one, which is the first key
    without its last [/index], with a leading [/] put in front when nothing is
    left of the path; both hold the handler of [Index] as long as no method of
    another name writes them. When the pattern holds a built-in name, every
    registered key is the first key of some method: no extra key is added. *)
Theorem index_alias_registered
    pattern object method mw src te domain method' path idx :
  oType object = TPtr te ->
  parsePattern pattern = inl (domain, method', path) ->
  indexKeysOk (effectivePattern pattern domain method' path) (Name te)
              (methodsOf (TPtr te)) ->
  idx ∈ methodsOf (TPtr te) ->
  mName idx = "Index" ->
  inFilter (methodFilter method) "Index" = true ->
  conforms idx = true ->
  let pat := effectivePattern pattern domain method' path in
  let filter := methodFilter method in
  let key := mergeBuildInNameToPattern pat (Name te) "Index" true in
  exists m log,
    doBindMultiObject pattern object method mw src = Bound m log /\
    (hasBuiltInName pat = false ->
       exists p, PosRI key "/index" = Some p /\
         let stripped := sliceTo p key +:+ sliceFrom (p + 6) key in
         let alias := if emptyPath stripped then "/" +:+ stripped else stripped in
         is_Some (m !! key) /\ is_Some (m !! alias) /\
         ((forall x, x ∈ methodsOf (TPtr te) -> mName x <> "Index" ->
             (key ∉ keysWritten pat te filter x) /\
             (alias ∉ keysWritten pat te filter x)) ->
          m !! key = Some (itemOf te object mw src idx) /\
          m !! alias = Some (itemOf te object mw src idx) /\
          itemFunc (itemOf te object mw src idx) = dispatcherOf object te "Index")) /\
    (hasBuiltInName pat = true ->
       forall k, is_Some (m !! k) ->
         exists mth, mth ∈ methodsOf (TPtr te) /\ scanned filter mth = true /\
           conforms mth = true /\ k = objectKey pat te mth).
Proof.
  intros Ht Hp Hok Hin Hname Hfilter Hc pat filter key.
  rewrite (doBindMultiObject_ptr _ _ _ _ _ _ _ _ _ Ht Hp).
  fold pat filter.
  destruct (loop_runs pat te object filter mw src Ht _ Hok ∅ []) as [m Hrun].
  rewrite Hrun. simpl. eexists _, _. split; [reflexivity|].
  pose proof (step_lookup pat te object filter mw src Ht) as Hlk.
  assert (Hs : scanned filter idx = true).
  { unfold scanned. rewrite Hname. fold filter in Hfilter. rewrite Hfilter. reflexivity. }
  assert (Hkey : objectKey pat te idx = key).
  { unfold objectKey, key. by rewrite Hname. }
  split.
  - intros Hnb.
    assert (Ha : aliased pat idx = true).
    { unfold aliased. rewrite Hname, Hnb. reflexivity. }
    destruct (Hok idx Hin Ha) as [a Halias].
    fold pat in Halias. rewrite Hname in Halias. fold key in Halias.
    destruct (indexAlias_Some _ _ Halias) as (p & Hpos & Hadef).
    exists p. split; [exact Hpos|]. simpl. simpl in Hadef. rewrite <- Hadef.
    assert (Hw : keysWritten pat te filter idx = [key; a]).
    { unfold keysWritten. rewrite Hs, Hc, Ha, Hkey, Halias. reflexivity. }
    assert (Hk1 : key ∈ keysWritten pat te filter idx) by (rewrite Hw; by left).
    assert (Hk2 : a ∈ keysWritten pat te filter idx)
      by (rewrite Hw; right; by left).
    split; [exact (loop_registers _ _ _ Hlk _ _ _ _ _ _ _ Hrun Hin Hk1)|].
    split; [exact (loop_registers _ _ _ Hlk _ _ _ _ _ _ _ Hrun Hin Hk2)|].
    intros Honly.
    assert (Hsame : forall k, k = key \/ k = a ->
              forall x, x ∈ methodsOf (TPtr te) ->
                k ∈ keysWritten pat te filter x -> mName x = mName idx).
    { intros k Hk x Hx Hkx. rewrite Hname.
      destruct (decide (mName x = "Index")) as [|Hne]; [done|].
      destruct (Honly x Hx Hne) as [H1 H2]. by destruct Hk as [-> | ->]. }
    split; [|split; [|unfold itemOf; simpl; by rewrite Hname]].
    + apply (loop_same_item_gen _ _ _ Hlk (itemOf_name te object mw src)
               idx key _ _ _ _ _ Hrun Hk1 (Hsame key (or_introl eq_refl))).
      by right.
    + apply (loop_same_item_gen _ _ _ Hlk (itemOf_name te object mw src)
               idx a _ _ _ _ _ Hrun Hk2 (Hsame a (or_intror eq_refl))).
      by right.
  - intros Hb k [it Hk].
    destruct (loop_items _ _ _ Hlk _ _ _ _ _ _ _ Hrun Hk) as [He|(mth & Hm & Hw & _)].
    + by rewrite lookup_empty in He.
    + exists mth. destruct (written_scanned_conforms _ _ _ _ _ Hw) as [Hs' Hc'].
      split; [done|]. split; [done|]. split; [done|].
      unfold keysWritten in Hw. rewrite Hs', Hc' in Hw. simpl in Hw.
      unfold aliased in Hw. rewrite Hb in Hw. rewrite andb_false_r in Hw.
      by apply list_elem_of_singleton in Hw.
Qed.

(** C6. REST mode on a pointer object: the call reaches [bindHandlerByMap];
    the keys registered are exactly those of the methods whose upper-cased
    name is a recognised verb and whose signature matches; the key of such a
    method is built from the pattern with the method name put in front as
    its method component, with appending to the path switched off; and every
    diagnostic is about a verb-named method, so that a method with another
    name is skipped without any. *)
Theorem rest_binds_verbs_only pattern object mw src te :
  oType object = TPtr te ->
  exists m log,
    doBindMultiObjectRest pattern object mw src = Bound m log /\
    (forall k, is_Some (m !! k) <->
       exists mth, mth ∈ methodsOf (TPtr te) /\
         methodsMap (ToUpper (mName mth)) = true /\ conforms mth = true /\
         k = mergeBuildInNameToPattern (mName mth +:+ ":" +:+ pattern)
               (Name te) (mName mth) false) /\
    (forall k it, m !! k = Some it ->
       methodsMap (ToUpper (dMethod (itemFunc it))) = true) /\
    (forall d, d ∈ log ->
       levelOf d = LError /\
       exists n, diagMethod d = Some n /\ methodsMap (ToUpper n) = true).
Proof.
  intros Ht. rewrite (doBindMultiObjectRest_ptr _ _ _ _ _ Ht).
  destruct (rest_loop_runs pattern te object mw src Ht (methodsOf (TPtr te)) ∅ [])
    as [m Hrun].
  rewrite Hrun. simpl. eexists _, _. split; [reflexivity|].
  pose proof (rest_step_lookup pattern te object mw src Ht) as Hlk.
  assert (Hw : forall mth k, k ∈ restWritten pattern te mth <->
             isVerb mth = true /\ conforms mth = true /\ k = restKey pattern te mth).
  { intros mth k. unfold restWritten.
    destruct (isVerb mth), (conforms mth); simpl; split; intros Hx;
      try (by apply elem_of_nil in Hx);
      try (by destruct Hx as (Hv & Hc & _)).
    - by apply list_elem_of_singleton in Hx.
    - destruct Hx as (_ & _ & ->). by left. }
  split; [|split].
  - intros k. split.
    + intros [it Hk].
      destruct (loop_items _ _ _ Hlk _ _ _ _ _ _ _ Hrun Hk) as [He|(mth & Hm & Hwr & _)].
      * by rewrite lookup_empty in He.
      * apply Hw in Hwr as (Hv & Hc & ->). exists mth. done.
    + intros (mth & Hm & Hv & Hc & ->).
      apply (loop_registers _ _ _ Hlk _ _ _ _ _ _ _ Hrun Hm). apply Hw. done.
  - intros k it Hk.
    destruct (loop_items _ _ _ Hlk _ _ _ _ _ _ _ Hrun Hk) as [He|(mth & Hm & Hwr & ->)].
    + by rewrite lookup_empty in He.
    + apply Hw in Hwr as (Hv & _ & _). exact Hv.
  - intros d (mth & _ & Hd)%elem_of_flat_map.
    unfold restDiag in Hd. destruct (isVerb mth) eqn:Hv; [|by apply elem_of_nil in Hd].
    destruct (mSig mth); [by apply elem_of_nil in Hd|].
    apply list_elem_of_singleton in Hd as ->. split; [reflexivity|].
    exists (mName mth). done.
Qed.

(** C3, as amended. Single-method mode on a struct or a pointer: a method
    name that the type does not have ends the call with a fatal diagnostic;
    a method that exists with another signature ends it with an error-level
    diagnostic, which is not fatal; in both cases the call returns before
    [bindHandlerByMap] and the router map is as it was. *)
Theorem single_method_rejections pattern object method mw src te routes :
  Elem (wrapStruct (oType object)) = Some te ->
  let t := wrapStruct (oType object) in
  let name := TrimSpace method in
  let r := doBindMultiObjectMethod pattern object method mw src in
  (MethodByName t name = None ->
     r = Aborted [FatalInvalidMethodName name] /\
     hasFatal r = true /\ routesAfter r routes = routes) /\
  (forall mth typ, MethodByName t name = Some mth -> mSig mth = SigOther typ ->
     r = Aborted [ErrorInvalidRouteMethod (PkgPath te)
                    (objNameOf (typeString t) (PkgPath te)) name typ] /\
     hasFatal r = false /\ routesAfter r routes = routes).
Proof.
  intros He t name r. subst t name r. unfold doBindMultiObjectMethod.
  rewrite He. split.
  - intros ->. done.
  - intros mth typ -> ->. done.
Qed.

(** What single-method mode registers for a pointer object is a route whose
    target is a handler of the object's type, under the name of the struct. *)
Lemma single_method_route_target pattern object method mw src te m log k it :
  oType object = TPtr te ->
  doBindMultiObjectMethod pattern object method mw src = Bound m log ->
  m !! k = Some it ->
  itemFunc it = dispatcherOf object te (TrimSpace method) /\
  methodConforms (oType object) (TrimSpace method) = true.
Proof.
  intros Ht. unfold doBindMultiObjectMethod, methodConforms, conforms.
  rewrite Ht. simpl Elem. cbv iota beta. rewrite wrapStruct_ptr.
  destruct (MethodByName (TPtr te) (TrimSpace method)) as [mth|]; [|discriminate].
  destruct (mSig mth); [|discriminate].
  rewrite (callMultiObjectMethods_ptr _ _ _ Ht). intros [= <- <-] Hk.
  apply lookup_singleton_Some in Hk as [_ <-]. done.
Qed.

Lemma wrapStruct_struct i : tIsStruct i = true -> wrapStruct (TNamed i) = TPtr (TNamed i).
Proof. unfold wrapStruct, kindOf. by intros ->. Qed.

(** C10. A struct passed by value: as soon as one method reaches
    registration the binding call panics, in each of the three modes,
    because [callMultiObjectMethods] takes [t.Elem()] of the struct type
    itself; nothing is handed to [bindHandlerByMap]. *)
Theorem struct_value_binding_panics pattern object i :
  oType object = TNamed i ->
  tIsStruct i = true ->
  (forall method domain method' path,
     parsePattern pattern = inl (domain, method', path) ->
     (exists mth, mth ∈ tPtrMethods i /\
        scanned (methodFilter (bindMethod method)) mth = true /\ conforms mth = true) ->
     exists log,
       BindMultiObject pattern object method = BindPanic PanicElemOfInvalidType log) /\
  (forall method mth,
     MethodByName (TPtr (TNamed i)) (TrimSpace method) = Some mth ->
     conforms mth = true ->
     BindMultiObjectMethod pattern object method = BindPanic PanicElemOfInvalidType []) /\
  ((exists mth, mth ∈ tPtrMethods i /\ isVerb mth = true /\ conforms mth = true) ->
   exists log,
     BindMultiObjectRest pattern object = BindPanic PanicElemOfInvalidType log).
Proof.
  intros Ht Hs. split; [|split].
  - intros method domain method' path Hp (mth & Hin & Hsc & Hc).
    unfold BindMultiObject, doBindMultiObject.
    rewrite Hp, Ht, (wrapStruct_struct _ Hs). simpl Elem. cbv iota beta.
    set (filter := methodFilter (bindMethod method)) in *.
    match goal with |- context [runLoop ?st _ _] => set (step := st) end.
    destruct (loop_stops_at_first step (tPtrMethods i)
                (fun x => scanned filter x && conforms x)) with (m := (∅ : gmap string handlerItem)) (log := @nil diag)
      as [log' Hrun].
    + intros x m log Hx. unfold step, bindObjectStep.
      fold (scanned filter x) in *. unfold scanned in Hx |- *.
      destruct (inFilter filter (mName x)); simpl in *; [|eauto].
      destruct (String.eqb (mName x) "Init" || String.eqb (mName x) "Shut");
        simpl in *; [eauto|].
      unfold conforms in Hx. destruct (mSig x); [discriminate|].
      destruct (filterGiven filter); eauto.
    + intros x m log Hx. unfold step, bindObjectStep.
      apply andb_prop in Hx as [Hx1 Hx2]. unfold scanned in Hx1.
      apply andb_prop in Hx1 as [Hf Hn]. rewrite Hf. simpl.
      apply negb_true_iff in Hn. rewrite Hn.
      unfold conforms in Hx2. destruct (mSig x); [|discriminate].
      by rewrite (callMultiObjectMethods_named _ _ _ Ht).
    + exists mth. by rewrite Hsc, Hc.
    + exists log'. simpl methodsOf. rewrite Hrun. reflexivity.
  - intros method mth Hm Hc.
    unfold BindMultiObjectMethod, doBindMultiObjectMethod.
    rewrite Ht, (wrapStruct_struct _ Hs). simpl Elem. cbv iota beta. rewrite Hm.
    unfold conforms in Hc. destruct (mSig mth); [|discriminate].
    by rewrite (callMultiObjectMethods_named _ _ _ Ht).
  - intros (mth & Hin & Hv & Hc).
    unfold BindMultiObjectRest, doBindMultiObjectRest.
    rewrite Ht, (wrapStruct_struct _ Hs). simpl Elem. cbv iota beta.
    match goal with |- context [runLoop ?st _ _] => set (step := st) end.
    destruct (loop_stops_at_first step (tPtrMethods i)
                (fun x => isVerb x && conforms x)) with (m := (∅ : gmap string handlerItem)) (log := @nil diag)
      as [log' Hrun].
    + intros x m log Hx. unfold step, bindRestStep.
      fold (isVerb x). destruct (isVerb x); simpl in *; [|eauto].
      unfold conforms in Hx. destruct (mSig x); [discriminate|]. eauto.
    + intros x m log Hx. unfold step, bindRestStep.
      apply andb_prop in Hx as [Hx1 Hx2]. fold (isVerb x). rewrite Hx1. simpl.
      unfold conforms in Hx2. destruct (mSig x); [|discriminate].
      by rewrite (callMultiObjectMethods_named _ _ _ Ht).
    + exists mth. by rewrite Hv, Hc.
    + exists log'. simpl methodsOf. rewrite Hrun. reflexivity.
Qed.

End BindingTheorems.

(** * Properties of dispatch *)

Section DispatchFacts.
Context `{FailureBoundary}.

Lemma initState_wf h : wfState (initState h).
Proof. intros name pid Hl. simpl in Hl. by rewrite lookup_empty in Hl. Qed.

Lemma initState_ready d h : routeReady d (initState h).
Proof. intros pid p Hl. simpl in Hl. by rewrite lookup_empty in Hl. Qed.

Lemma elem_of_not_nil {A} (x : A) (l : list A) : x ∈ l -> l <> [].
Proof. intros Hx ->. by apply elem_of_nil in Hx. Qed.

(** What a guarded call changes: the heap, one more event, and a report
    exactly when the function panicked; the closure is unwound only after
    a report. *)
Lemma callPhase_fields ph id r f s :
  stCache (crState (callPhase ph id r f s)) = stCache s /\
  stPools (crState (callPhase ph id r f s)) = stPools s /\
  stTrace (crState (callPhase ph id r f s)) = stTrace s ++ [EvCall ph id r] /\
  exists new,
    stReported (crState (callPhase ph id r f s)) = stReported s ++ new /\
    ((exists e h', f r (stHeap s) = UPanic e h') -> new <> []) /\
    (forall s2, callPhase ph id r f s = Unwind s2 -> new <> []).
Proof.
  unfold callPhase, niceCallFunc. simpl.
  destruct (f r (stHeap s)) as [h|e h]; simpl.
  - split_and!; try reflexivity. exists []. rewrite app_nil_r.
    split_and!; [reflexivity| |].
    + by intros (e & h' & ?).
    + intros s2 ?. discriminate.
  - assert (Hshape : exists s',
        (if resumes ph e
         then Continue (report ph e (setHeap h (logEvent (EvCall ph id r) s)))
         else Unwind (report ph e (setHeap h (logEvent (EvCall ph id r) s))))
        = s' /\ crState s' = report ph e (setHeap h (logEvent (EvCall ph id r) s))).
    { destruct (resumes ph e); eexists; split; reflexivity. }
    destruct Hshape as (c & -> & Hc). rewrite Hc. simpl.
    split_and!; try reflexivity. exists [(ph, e)].
    split_and!; [reflexivity| |]; by intros.
Qed.

Lemma callHook_fields ph hook id r s :
  stCache (crState (callHook ph hook id r s)) = stCache s /\
  stPools (crState (callHook ph hook id r s)) = stPools s /\
  stTrace (crState (callHook ph hook id r s)) = stTrace s ++ hookEvents ph hook id r /\
  exists new,
    stReported (crState (callHook ph hook id r s)) = stReported s ++ new /\
    (forall f, hook = Some f -> (exists e h', f r (stHeap s) = UPanic e h') ->
       new <> []) /\
    (forall s2, callHook ph hook id r s = Unwind s2 -> new <> []).
Proof.
  destruct hook as [f|]; simpl.
  - destruct (callPhase_fields ph id r f s) as (? & ? & ? & new & ? & Hp & Hu).
    split_and!; try done. exists new. split_and!; try done.
    intros f' [= <-]. exact Hp.
  - split_and!; try by rewrite ?app_nil_r. exists []. rewrite app_nil_r.
    split_and!; try done.
Qed.

Lemma lifecycleHook_conforming t cell name :
  hookConforms t name = true ->
  lifecycleHook t cell name = inr (hookOf t cell name).
Proof.
  unfold hookConforms, lifecycleHook, hookOf, conforms, asHandler.
  destruct (MethodByName t name) as [m|]; [|reflexivity].
  by destruct (mSig m).
Qed.

(** The factory on an object whose hooks conform. *)
Lemma newInfo_conforming object id :
  hookConforms (oType object) "Init" = true ->
  hookConforms (oType object) "Shut" = true ->
  exists o, newInfo object id = inr o /\ entryOf object o /\ infoId o = id /\
            methods o = ∅.
Proof.
  intros Hi Hs. unfold newInfo.
  rewrite (lifecycleHook_conforming _ _ _ Hi), (lifecycleHook_conforming _ _ _ Hs).
  eexists. split; [reflexivity|]. split; [|done].
  repeat split; simpl. intros n f Hl. by rewrite lookup_empty in Hl.
Qed.

Lemma methodConforms_hookOf t cell name :
  methodConforms t name = true ->
  exists m, MethodByName t name = Some m /\ hookOf t cell name = Some (mBody m cell).
Proof.
  unfold methodConforms, hookOf, conforms, asHandler.
  destruct (MethodByName t name) as [m|]; [|discriminate].
  destruct (mSig m); [|discriminate]. eauto.
Qed.

(** A hook or method of the type that conforms and always panics does so
    when it is called as [hookOf] binds it. *)
Lemma hookOf_alwaysPanics t cell name m f r h :
  MethodByName t name = Some m -> hookOf t cell name = Some f ->
  alwaysPanics (mBody m) -> exists e h', f r h = UPanic e h'.
Proof.
  unfold hookOf, asHandler. intros -> Hf Hp.
  destruct (mSig m); [|discriminate]. inversion Hf; subst f. apply Hp.
Qed.

(** The target phase on an entry of the factory, for a conforming method:
    the method of the entry's instance is called, from the cache or after a
    lookup that fills the cache. *)
Lemma callTarget_conforming object o name r :
  entryOf object o ->
  methodConforms (oType object) name = true ->
  exists f o',
    hookOf (oType object) (oValue object) name = Some f /\
    (forall s, callTarget o name r s
               = Called o' (callPhase (PhaseMethod name) (infoId o) r f s)) /\
    entryOf object o' /\ infoId o' = infoId o /\
    initFunc o' = initFunc o /\ shutFunc o' = shutFunc o.
Proof.
  intros (Ht & Hc & Hi & Hs & Hm) Hconf.
  destruct (methodConforms_hookOf _ (oValue object) _ Hconf) as (m & Hfind & Hhook).
  destruct (methods o !! name) as [f|] eqn:Hl.
  - exists f, o. split; [by apply Hm|]. split.
    + intros s. unfold callTarget. by rewrite Hl.
    + repeat split; done.
  - assert (Ha : asHandler m (oValue object) = Some (mBody m (oValue object))).
    { unfold hookOf in Hhook. by rewrite Hfind in Hhook. }
    eexists _, _. split; [exact Hhook|]. split.
    + intros s. unfold callTarget. rewrite Hl, Ht, Hfind, Hc, Ha. reflexivity.
    + repeat split; try done. simpl. intros n f Hn.
      destruct (decide (n = name)) as [->|Hne].
      * rewrite lookup_insert_eq in Hn. by inversion Hn.
      * rewrite lookup_insert_ne in Hn by done. eauto.
Qed.

Lemma hookConforms_hookOf t cell name m :
  hookConforms t name = true -> MethodByName t name = Some m ->
  hookOf t cell name = Some (mBody m cell).
Proof.
  unfold hookConforms, hookOf, conforms, asHandler. intros Hc Hm.
  rewrite Hm in Hc |- *. by destruct (mSig m).
Qed.

(** [pool.Get()] on a pool whose factory does not panic. *)
Lemma poolGet_ready pid s p :
  stPools s !! pid = Some p ->
  Forall (entryOf (poolNew p)) (poolIdle p) ->
  hookConforms (oType (poolNew p)) "Init" = true ->
  hookConforms (oType (poolNew p)) "Shut" = true ->
  exists o s1 rest,
    poolGet pid s = Got o s1 /\ entryOf (poolNew p) o /\
    stHeap s1 = stHeap s /\ stCache s1 = stCache s /\
    stTrace s1 = stTrace s /\ stReported s1 = stReported s /\
    stPools s1 = <[pid := {| poolNew := poolNew p; poolIdle := rest |}]> (stPools s) /\
    Forall (entryOf (poolNew p)) rest.
Proof.
  intros Hp Hidle Hi Hs. unfold poolGet. rewrite Hp.
  destruct (poolIdle p) as [|o rest] eqn:Hl.
  - destruct (newInfo_conforming (poolNew p) (stNextInfo s) Hi Hs)
      as (o & -> & Hent & _ & _).
    exists o, (bumpInfo s), []. split_and!; try done. simpl.
    rewrite list_insert_id; [done|]. rewrite Hp. f_equal.
    destruct p; simpl in *. by rewrite Hl.
  - apply Forall_cons in Hidle as [Ho Hrest].
    eexists o, _, rest. split; [reflexivity|]. split_and!; done.
Qed.

(** The three phases on an entry of the route's pool: the run ends inside
    the failure boundary, whatever user code does; after a full run the
    entry is back in the pool; after an unwinding the trace stops at the
    call that faulted. *)
Lemma serveWith_spec d r pid o s1 q rest :
  stPools s1 !! pid = Some {| poolNew := q; poolIdle := rest |} ->
  oType q = oType (dObject d) ->
  entryOf q o ->
  servable d = true ->
  exists new,
    stReported (stateOf (serveWith d r pid o s1)) = stReported s1 ++ new /\
    stCache (stateOf (serveWith d r pid o s1)) = stCache s1 /\
    (forall name m, name ∈ ["Init"; dMethod d; "Shut"] ->
       MethodByName (oType (dObject d)) name = Some m ->
       alwaysPanics (mBody m) -> new <> []) /\
    match serveWith d r pid o s1 with
    | Done s' =>
        (exists o', entryOf q o' /\
           stPools s' = <[pid := {| poolNew := q; poolIdle := rest ++ [o'] |}]> (stPools s1)) /\
        stTrace s' = stTrace s1 ++ phaseCalls d o r ++ [EvPut (infoId o)]
    | Unwound s' =>
        stPools s' = stPools s1 /\ new <> [] /\
        exists k, stTrace s' = stTrace s1 ++ take k (phaseCalls d o r)
    | Fault _ _ => False
    end.
Proof.
  intros Hp Hty Hent Hserv.
  unfold servable in Hserv.
  apply andb_prop in Hserv as [Hserv Hshut]. apply andb_prop in Hserv as [Hmeth Hinit].
  rewrite <- Hty in *.
  destruct (callTarget_conforming q o (dMethod d) r Hent Hmeth)
    as (f & o' & Hf & Hcall & Hent' & Hid & _ & Hsh).
  destruct Hent as (_ & _ & Hei & Hes & _).
  pose proof (callHook_fields PhaseInit (initFunc o) (infoId o) r s1)
    as (C2 & P2 & T2 & n1 & R2 & F2 & U2).
  unfold serveWith, phaseCalls.
  destruct (callHook PhaseInit (initFunc o) (infoId o) r s1) as [s2|s2] eqn:E1;
    simpl in C2, P2, T2, R2.
  2:{ (* unwound in Init *)
    assert (Hn1 : n1 <> []) by (by eapply U2).
    exists n1. cbn [stateOf]. split_and!; try done.
    exists (List.length (hookEvents PhaseInit (initFunc o) (infoId o) r)).
    by rewrite take_app_length. }
  rewrite Hcall.
  pose proof (callPhase_fields (PhaseMethod (dMethod d)) (infoId o) r f s2)
    as (C3 & P3 & T3 & n2 & R3 & F3 & U3).
  destruct (callPhase (PhaseMethod (dMethod d)) (infoId o) r f s2) as [s3|s3] eqn:E2;
    simpl in C3, P3, T3, R3.
  2:{ (* unwound in the target method *)
    assert (Hn2 : n2 <> []) by (by eapply U3).
    exists (n1 ++ n2). cbn [stateOf]. split_and!.
    - by rewrite R3, R2, app_assoc.
    - by rewrite C3, C2.
    - intros _ _ _ _ _ [_ ?]%app_nil. done.
    - by rewrite P3, P2.
    - intros [_ ?]%app_nil. done.
    - exists (List.length (hookEvents PhaseInit (initFunc o) (infoId o) r
                           ++ [EvCall (PhaseMethod (dMethod d)) (infoId o) r])).
      rewrite T3, T2. rewrite (app_assoc (hookEvents _ _ _ _)).
      rewrite take_app_length. by rewrite <- !app_assoc. }
  pose proof (callHook_fields PhaseShut (shutFunc o') (infoId o') r s3)
    as (C4 & P4 & T4 & n3 & R4 & F4 & U4).
  destruct (callHook PhaseShut (shutFunc o') (infoId o') r s3) as [s4|s4] eqn:E3;
    simpl in C4, P4, T4, R4.
  2:{ (* unwound in Shut *)
    assert (Hn3 : n3 <> []) by (by eapply U4).
    exists (n1 ++ n2 ++ n3). cbn [stateOf]. split_and!.
    - by rewrite R4, R3, R2, <- !app_assoc.
    - by rewrite C4, C3, C2.
    - intros _ _ _ _ _ [_ [_ ?]%app_nil]%app_nil. done.
    - by rewrite P4, P3, P2.
    - intros [_ [_ ?]%app_nil]%app_nil. done.
    - exists (List.length (hookEvents PhaseInit (initFunc o) (infoId o) r
                           ++ [EvCall (PhaseMethod (dMethod d)) (infoId o) r]
                           ++ hookEvents PhaseShut (shutFunc o) (infoId o) r)).
      rewrite take_ge by done.
      rewrite T4, T3, T2, Hid, Hsh. by rewrite <- !app_assoc. }
  (* the closure ran to its end *)
  assert (Hp4 : stPools s4 !! pid = Some {| poolNew := q; poolIdle := rest |}).
  { by rewrite P4, P3, P2. }
  assert (Hpid : pid < List.length (stPools s1)) by (by eapply lookup_lt_Some).
  exists (n1 ++ n2 ++ n3). cbn [stateOf]. unfold poolPut. rewrite Hp4.
  cbn [logEvent setPools stReported stCache stPools stTrace].
  split_and!.
  - by rewrite R4, R3, R2, <- !app_assoc.
  - by rewrite C4, C3, C2.
  - intros name m Hname Hm Hpanic Hnil.
    apply app_nil in Hnil as [Hn1 [Hn2 Hn3]%app_nil].
    apply elem_of_cons in Hname as [->|Hname];
      [|apply elem_of_cons in Hname as [->|Hname]].
    + apply (F2 (mBody m (oValue q))); [|apply Hpanic|exact Hn1].
      rewrite Hei. by apply hookConforms_hookOf.
    + apply F3; [|exact Hn2].
      eapply hookOf_alwaysPanics; eauto.
    + apply list_elem_of_singleton in Hname as ->.
      apply (F4 (mBody m (oValue q))); [|apply Hpanic|exact Hn3].
      rewrite Hsh, Hes. by apply hookConforms_hookOf.
  - exists o'. split; [exact Hent'|]. by rewrite P4, P3, P2.
  - rewrite T4, T3, T2, Hid, Hsh. by rewrite <- !app_assoc.
Qed.

(** The pool the closure works with: the registered one, or a new one. *)
Lemma acquirePool_spec d s :
  wfState s -> routeReady d s ->
  exists pid s0 p,
    acquirePool d s = (pid, s0) /\
    stPools s0 !! pid = Some p /\ poolOk (oType (dObject d)) p /\
    stCache s0 = <[dStructName d := pid]> (stCache s) /\
    stHeap s0 = stHeap s /\ stTrace s0 = stTrace s /\ stReported s0 = stReported s /\
    wfState s0.
Proof.
  intros Hwf Hready. unfold acquirePool, lookupPool.
  destruct (stCache s !! dStructName d) as [pid|] eqn:Hl.
  - destruct (lookup_lt_is_Some_2 (stPools s) pid (Hwf _ _ Hl)) as [p Hp].
    exists pid, s, p. split_and!; try done.
    + exact (Hready _ _ Hl Hp).
    + by rewrite insert_id.
  - unfold insertPool. eexists _, _, _. split; [reflexivity|]. simpl.
    split. { rewrite lookup_app_r by done. by rewrite Nat.sub_diag. }
    split. { split; [reflexivity|]. simpl. constructor. }
    split_and!; try done.
    intros name pid. simpl. rewrite length_app. simpl.
    destruct (decide (name = dStructName d)) as [->|Hne].
    + rewrite lookup_insert_eq. intros [= <-]. lia.
    + rewrite lookup_insert_ne by done. intros Hn%Hwf. lia.
Qed.

(** One request through the closure, from a state where the registry is
    sound and the route's pool (if made) is of the route's type. *)
Lemma dispatch_spec d r s :
  wfState s -> routeReady d s -> servable d = true ->
  exists pid s0 o s1 new,
    acquirePool d s = (pid, s0) /\
    poolGet pid s0 = Got o s1 /\
    wfState (stateOf (dispatch d r s)) /\
    routeReady d (stateOf (dispatch d r s)) /\
    stReported (stateOf (dispatch d r s)) = stReported s ++ new /\
    (forall name m, name ∈ ["Init"; dMethod d; "Shut"] ->
       MethodByName (oType (dObject d)) name = Some m ->
       alwaysPanics (mBody m) -> new <> []) /\
    match dispatch d r s with
    | Done s' =>
        (exists p o', stCache s' !! dStructName d = Some pid /\
           stPools s' !! pid = Some p /\ last (poolIdle p) = Some o') /\
        stTrace s' =
          stTrace s ++ [EvGet (infoId o)] ++ phaseCalls d o r ++ [EvPut (infoId o)]
    | Unwound s' =>
        new <> [] /\
        exists k, stTrace s' = stTrace s ++ [EvGet (infoId o)] ++ take k (phaseCalls d o r)
    | Fault _ _ => False
    end.
Proof.
  intros Hwf Hready Hserv.
  destruct (acquirePool_spec d s Hwf Hready)
    as (pid & s0 & p & Hacq & Hp & [Hty Hidle] & Hc0 & Hh0 & Ht0 & Hr0 & Hwf0).
  assert (Hhooks : hookConforms (oType (poolNew p)) "Init" = true /\
                   hookConforms (oType (poolNew p)) "Shut" = true).
  { rewrite Hty. unfold servable in Hserv.
    apply andb_prop in Hserv as [Hserv ?]. by apply andb_prop in Hserv as [_ ?]. }
  destruct Hhooks as [Hinit Hshut].
  destruct (poolGet_ready pid s0 p Hp Hidle Hinit Hshut)
    as (o & s1 & rest & Hget & Hent & Hh1 & Hc1 & Ht1 & Hr1 & Hp1 & Hrest).
  assert (Hpid : pid < List.length (stPools s0)) by (by eapply lookup_lt_Some).
  set (s1' := logEvent (EvGet (infoId o)) s1).
  assert (Hp1' : stPools s1' !! pid = Some {| poolNew := poolNew p; poolIdle := rest |}).
  { simpl. rewrite Hp1. by apply list_lookup_insert_eq. }
  destruct (serveWith_spec d r pid o s1' (poolNew p) rest Hp1' Hty Hent Hserv)
    as (new & Hrep & Hcache & Hpan & Hres).
  assert (Hd : dispatch d r s = serveWith d r pid o s1').
  { unfold dispatch. rewrite Hacq. unfold serve, borrow. by rewrite Hget. }
  exists pid, s0, o, s1, new. rewrite Hd.
  assert (Hcl : stCache (stateOf (serveWith d r pid o s1')) !! dStructName d = Some pid).
  { rewrite Hcache. simpl. rewrite Hc1, Hc0. apply lookup_insert_eq. }
  assert (Hpools : exists idle,
     Forall (entryOf (poolNew p)) idle /\
     stPools (stateOf (serveWith d r pid o s1'))
     = <[pid := {| poolNew := poolNew p; poolIdle := idle |}]> (stPools s0)).
  { destruct (serveWith d r pid o s1') as [s'|s'|pn s']; simpl in *.
    - destruct Hres as [(o' & Hent' & Hps) _]. exists (rest ++ [o']). split.
      + apply Forall_app. split; [done|]. by apply Forall_singleton.
      + rewrite Hps, Hp1. by rewrite list_insert_insert_eq.
    - destruct Hres as (Hps & _). exists rest. split; [done|]. by rewrite Hps.
    - done. }
  destruct Hpools as (idle & Hidle' & Hpools).
  split; [exact Hacq|]. split; [exact Hget|].
  split. { intros name q. rewrite Hcache, Hpools, length_insert. simpl.
           rewrite Hc1. apply Hwf0. }
  split. { intros q p' Hq Hp'. rewrite Hcl in Hq. inversion Hq; subst q.
           rewrite Hpools in Hp'. rewrite list_lookup_insert_eq in Hp' by done.
           inversion Hp'; subst p'. split; simpl; done. }
  split. { rewrite Hrep. simpl. by rewrite Hr1, Hr0. }
  split; [exact Hpan|].
  destruct (serveWith d r pid o s1') as [s'|s'|pn s']; simpl in *.
  - destruct Hres as [(o' & Hent' & Hps) Htr]. split.
    + eexists _, o'. split; [exact Hcl|]. split.
      * rewrite Hps. apply list_lookup_insert_eq. by rewrite Hp1, length_insert.
      * simpl. by rewrite last_snoc.
    + rewrite Htr, Ht1, Ht0. by rewrite <- !app_assoc.
  - destruct Hres as (_ & Hne & k & Htr). split; [exact Hne|].
    exists k. rewrite Htr, Ht1, Ht0. by rewrite <- !app_assoc.
  - done.
Qed.

(** C7. One request through the closure of a registered route, whatever the
    failure boundary does after a fault: the entry is taken from the pool;
    then its [Init] hook, if it has one, is called once; then the target
    method is called once; then its [Shut] hook, if it has one, is called
    once; and only then is the entry put back. When a fault unwinds the
    closure the trace stops there: no later phase is called and the entry is
    not put back. *)
Theorem dispatch_phase_order d r s :
  wfState s -> routeReady d s -> servable d = true ->
  exists pid s0 o s1,
    acquirePool d s = (pid, s0) /\
    poolGet pid s0 = Got o s1 /\
    let calls :=
      hookEvents PhaseInit (initFunc o) (infoId o) r
      ++ [EvCall (PhaseMethod (dMethod d)) (infoId o) r]
      ++ hookEvents PhaseShut (shutFunc o) (infoId o) r in
    match dispatch d r s with
    | Done s' =>
        stTrace s' = stTrace s ++ [EvGet (infoId o)] ++ calls ++ [EvPut (infoId o)]
    | Unwound s' =>
        exists k, stTrace s' = stTrace s ++ [EvGet (infoId o)] ++ take k calls
    | Fault _ _ => False
    end.
Proof.
  intros Hwf Hready Hserv.
  destruct (dispatch_spec d r s Hwf Hready Hserv)
    as (pid & s0 & o & s1 & new & Hacq & Hget & _ & _ & _ & _ & Hres).
  exists pid, s0, o, s1. split; [exact Hacq|]. split; [exact Hget|].
  fold (phaseCalls d o r). simpl.
  destruct (dispatch d r s) as [s'|s'|pn s'].
  - by destruct Hres as [_ ?].
  - by destruct Hres as [_ ?].
  - done.
Qed.

(** C2. With [niceCallFunc] the failure boundary of the spec, whatever it
    does after a fault: whatever the [Init] hook, the target method and the
    [Shut] hook of a registered route do, panics included, no panic leaves
    the closure for the router; a run that a fault cut short has reported
    it, and so has any run in which a hook or method that always panics takes
    part; the registry and the pool are sound afterwards, after a full run
    the entry is back in the pool, and the next request to the route is
    served in the same way. *)
Theorem dispatch_contains_user_panics d r s :
  wfState s -> routeReady d s -> servable d = true ->
  exists new,
    contained (dispatch d r s) = true /\
    stReported (stateOf (dispatch d r s)) = stReported s ++ new /\
    (forall s', dispatch d r s = Unwound s' -> new <> []) /\
    (forall name m, name ∈ ["Init"; dMethod d; "Shut"] ->
       MethodByName (oType (dObject d)) name = Some m ->
       alwaysPanics (mBody m) -> new <> []) /\
    wfState (stateOf (dispatch d r s)) /\
    routeReady d (stateOf (dispatch d r s)) /\
    (forall s', dispatch d r s = Done s' ->
       exists pid p o,
         stCache s' !! dStructName d = Some pid /\ stPools s' !! pid = Some p /\
         last (poolIdle p) = Some o) /\
    (forall r2, contained (dispatch d r2 (stateOf (dispatch d r s))) = true).
Proof.
  intros Hwf Hready Hserv.
  destruct (dispatch_spec d r s Hwf Hready Hserv)
    as (pid & s0 & o & s1 & new & _ & _ & Hwf' & Hready' & Hrep & Hpan & Hres).
  exists new.
  assert (Hcont : forall r0 s0, wfState s0 -> routeReady d s0 ->
                    contained (dispatch d r0 s0) = true).
  { intros r0 s2 Hwf2 Hready2.
    destruct (dispatch_spec d r0 s2 Hwf2 Hready2 Hserv)
      as (? & ? & ? & ? & ? & _ & _ & _ & _ & _ & _ & Hres2).
    by destruct (dispatch d r0 s2). }
  split; [by apply Hcont|]. split; [exact Hrep|].
  split. { intros s' Hd. rewrite Hd in Hres. by destruct Hres as [? _]. }
  split; [exact Hpan|]. split; [exact Hwf'|]. split; [exact Hready'|].
  split.
  - intros s' Hd. rewrite Hd in Hres. destruct Hres as [(p & o' & ? & ? & ?) _].
    by exists pid, p, o'.
  - intros r2. by apply Hcont.
Qed.

End DispatchFacts.

(** ** The registry *)

Section RegistryFacts.
Context `{FailureBoundary}.

Lemma poolGet_frame pid s o s1 :
  poolGet pid s = Got o s1 ->
  stCache s1 = stCache s /\ poolCount s1 = poolCount s.
Proof.
  unfold poolGet, poolCount. destruct (stPools s !! pid) as [p|]; [|discriminate].
  destruct (poolIdle p) as [|x rest].
  - destruct (newInfo (poolNew p) (stNextInfo s)); [discriminate|].
    intros [= <- <-]. done.
  - intros [= <- <-]. simpl. by rewrite length_insert.
Qed.

Lemma poolPut_frame pid o s :
  stCache (poolPut pid o s) = stCache s /\ poolCount (poolPut pid o s) = poolCount s.
Proof.
  unfold poolPut, poolCount. destruct (stPools s !! pid) as [p|]; [|done].
  simpl. by rewrite length_insert.
Qed.

Lemma callTarget_frame o name r s o' c :
  callTarget o name r s = Called o' c ->
  stCache (crState c) = stCache s /\ stPools (crState c) = stPools s.
Proof.
  unfold callTarget. destruct (methods o !! name) as [f|].
  - intros [= <- <-].
    by destruct (callPhase_fields (PhaseMethod name) (infoId o) r f s) as (? & ? & _).
  - destruct (MethodByName (rValType o) name) as [m|]; [|discriminate].
    destruct (asHandler m (rValCell o)) as [f|].
    + intros [= <- <-].
      by destruct (callPhase_fields (PhaseMethod name) (infoId o) r f s) as (? & ? & _).
    + intros [= <- <-]. done.
Qed.

(** Whatever happens once the pool is known, the registry and the number of
    pools stay as they are. *)
Lemma serve_frame d r pid s :
  stCache (stateOf (serve d r pid s)) = stCache s /\
  poolCount (stateOf (serve d r pid s)) = poolCount s.
Proof.
  unfold serve, borrow. destruct (poolGet pid s) as [o s0|p] eqn:Hget; [|done].
  destruct (poolGet_frame _ _ _ _ Hget) as [Hc0 Hn0].
  unfold serveWith.
  set (s1 := logEvent (EvGet (infoId o)) s0).
  destruct (callHook_fields PhaseInit (initFunc o) (infoId o) r s1)
    as (C2 & P2 & _).
  destruct (callHook PhaseInit (initFunc o) (infoId o) r s1) as [s2|s2];
    simpl in C2, P2; unfold poolCount in *.
  2:{ simpl. by rewrite C2, P2. }
  destruct (callTarget o (dMethod d) r s2) as [o' c|p] eqn:Hcall.
  2:{ simpl. by rewrite C2, P2. }
  destruct (callTarget_frame _ _ _ _ _ _ Hcall) as [C3 P3].
  destruct c as [s3|s3]; simpl in C3, P3.
  2:{ simpl. by rewrite C3, P3, C2, P2. }
  destruct (callHook_fields PhaseShut (shutFunc o') (infoId o') r s3)
    as (C4 & P4 & _).
  destruct (callHook PhaseShut (shutFunc o') (infoId o') r s3) as [s4|s4];
    simpl in C4, P4.
  2:{ simpl. by rewrite C4, P4, C3, P3, C2, P2. }
  destruct (poolPut_frame pid o' s4) as [C5 P5]. unfold poolCount in P5.
  simpl. by rewrite C5, P5, C4, P4, C3, P3, C2, P2.
Qed.

(** One closure run without interruption: a name the registry has keeps its
    pool and no pool is made; a name it lacks gets one new pool. *)
Lemma dispatch_registry d r s :
  (forall pid, stCache s !! dStructName d = Some pid ->
     stCache (stateOf (dispatch d r s)) = stCache s /\
     poolCount (stateOf (dispatch d r s)) = poolCount s) /\
  (stCache s !! dStructName d = None ->
     stCache (stateOf (dispatch d r s)) = <[dStructName d := poolCount s]> (stCache s) /\
     poolCount (stateOf (dispatch d r s)) = S (poolCount s)).
Proof.
  unfold dispatch, acquirePool, lookupPool. split.
  - intros pid ->. apply serve_frame.
  - intros ->. unfold insertPool.
    match goal with |- context [serve d r ?p ?s0] =>
      destruct (serve_frame d r p s0) as [-> ->] end.
    unfold poolCount. simpl. rewrite length_app. simpl. split; [done|lia].
Qed.

Lemma dispatch_onePoolPerName d r s :
  onePoolPerName s -> onePoolPerName (stateOf (dispatch d r s)).
Proof.
  unfold onePoolPerName. intros Hinv.
  destruct (dispatch_registry d r s) as [Hsome Hnone].
  destruct (stCache s !! dStructName d) as [pid|] eqn:Hl.
  - destruct (Hsome pid eq_refl) as [-> ->]. done.
  - destruct (Hnone eq_refl) as [-> ->].
    rewrite map_size_insert_None by done. by rewrite Hinv.
Qed.

(** C9, as amended. The registry is a plain map and nothing guards it. When
    the requests are served one after the other, a first use of a struct
    name makes one pool and registers it, a later use finds it and makes
    none, and so there are as many pools as registered names. Nothing is
    stated for requests that interleave. *)
Theorem registry_sequential_one_pool reqs h d r :
  let s := dispatchAll reqs (initState h) in
  let s' := stateOf (dispatch d r s) in
  onePoolPerName s /\
  (forall pid, stCache s !! dStructName d = Some pid ->
     stCache s' = stCache s /\ poolCount s' = poolCount s) /\
  (stCache s !! dStructName d = None ->
     stCache s' = <[dStructName d := poolCount s]> (stCache s) /\
     poolCount s' = S (poolCount s)).
Proof.
  intros s s'. split; [|apply dispatch_registry].
  subst s. assert (Hgen : forall s0, onePoolPerName s0 ->
                            onePoolPerName (dispatchAll reqs s0)).
  { induction reqs as [|[d0 r0] rest IH]; intros s0 H0; simpl; [done|].
    apply IH. by apply dispatch_onePoolPerName. }
  apply Hgen. unfold onePoolPerName, poolCount. simpl. by rewrite map_size_empty.
Qed.

End RegistryFacts.

(** * The code on sample objects *)

#[local] Existing Instance Sample.env.
#[local] Existing Instance Sample.boundary.

(** The factory stores the value of the object as it is. *)
Lemma newInfo_keeps_value object id o :
  newInfo object id = inr o ->
  rValType o = oType object /\ rValCell o = oValue object.
Proof.
  unfold newInfo.
  destruct (lifecycleHook (oType object) (oValue object) "Init"); [discriminate|].
  destruct (lifecycleHook (oType object) (oValue object) "Shut"); [discriminate|].
  intros [= <-]. done.
Qed.

(** A lifecycle hook with another signature makes the factory panic. *)
Lemma newInfo_nonconforming_hook object id m typ :
  MethodByName (oType object) "Init" = Some m ->
  mSig m = SigOther typ ->
  newInfo object id = inl (PanicTypeAssertion "Init").
Proof.
  intros Hm Hs. unfold newInfo, lifecycleHook, asHandler. by rewrite Hm, Hs.
Qed.

(** C1 (the code at a failing input). Two requests to a route of [&User{}]
    are in flight together: each holds an entry of the pool, neither has
    returned it. The two entries are distinct, yet the instance of each is
    the pointer that was bound, so both point to the one struct at address 0;
    when the two handlers have run, that one struct has been incremented
    twice. *)
Theorem pooled_entries_share_instance :
  let d := dispatcherOf Sample.userPtr Sample.userT "Inc" in
  let ws := [newWorker d (Sample.req 1); newWorker d (Sample.req 2)] in
  match map wPc (runSchedule [0; 0; 0; 1; 1] ws (initState Sample.heap0)).1 with
  | [AtCall p1 o1; AtCall p2 o2] =>
      p1 = p2 /\ infoId o1 <> infoId o2 /\
      rValCell o1 = VPtr 0 /\ rValCell o2 = VPtr 0
  | _ => False
  end /\
  stHeap (runSchedule [0; 0; 0; 1; 1; 0; 1] ws (initState Sample.heap0)).2
  = [VStruct [2%Z]].
Proof.
  vm_compute. split; [|reflexivity].
  split; [reflexivity|]. split; [discriminate|]. split; reflexivity.
Qed.

(** C8 (the code at a failing input). For a type whose [Init] is a [func()],
    the factory does not finish: the one-result type assertion panics, and
    so does the first request to any route of that type. *)
Theorem factory_panics_on_nonconforming_init :
  let d := dispatcherOf Sample.oddInitPtr Sample.oddInitT "Get" in
  newInfo Sample.oddInitPtr 0 = inl (PanicTypeAssertion "Init") /\
  match dispatch d (Sample.req 1) (initState Sample.heap0) with
  | Fault p _ => p = PanicTypeAssertion "Init"
  | Done _ | Unwound _ => False
  end.
Proof. vm_compute. split; reflexivity. Qed.

(** A handler that panics, under the two failure boundaries: the fault is
    reported in both; with the first one [Shut] still runs and the entry goes
    back to the pool, with the second one the run stops at the handler. *)
Example panicking_handler_traces :
  let d := dispatcherOf Sample.boomPtr Sample.boomT "Get" in
  let r := Sample.req 1 in
  let run (B : FailureBoundary) := dispatch d r (initState Sample.heap0) in
  contained (run Sample.boundary) = true /\
  stTrace (stateOf (run Sample.boundary))
    = [EvGet 0; EvCall PhaseInit 0 r; EvCall (PhaseMethod "Get") 0 r;
       EvCall PhaseShut 0 r; EvPut 0] /\
  contained (run Sample.strictBoundary) = true /\
  stTrace (stateOf (run Sample.strictBoundary))
    = [EvGet 0; EvCall PhaseInit 0 r; EvCall (PhaseMethod "Get") 0 r] /\
  stReported (stateOf (run Sample.boundary)) = [(PhaseMethod "Get", "boom")] /\
  stReported (stateOf (run Sample.strictBoundary)) = [(PhaseMethod "Get", "boom")].
Proof. vm_compute. repeat split. Qed.

(** C9 (counterexample). Two requests make the first use of the same struct
    name and interleave at the registry: both read it before either writes
    it, both find the name missing, and both make a pool and write it. Two
    pools exist for one name, the registry keeps the second only, and the
    first request goes on with a pool the registry no longer knows. *)
Lemma registry_first_use_races :
  let d := dispatcherOf Sample.userPtr Sample.userT "Get" in
  let ws := [newWorker d (Sample.req 1); newWorker d (Sample.req 2)] in
  let res := runSchedule [0; 1; 0; 1] ws (initState Sample.heap0) in
  map wPc res.1 = [AtGet 0; AtGet 1] /\
  poolCount res.2 = 2 /\
  stCache res.2 !! "User" = Some 1 /\
  ~ onePoolPerName res.2.
Proof.
  vm_compute. split; [reflexivity|]. split; [reflexivity|].
  split; [reflexivity|]. discriminate.
Qed.

(** C3 (counterexample). [Bad] exists on [*User] with the signature
    [func()]; binding it by name is not fatal: the one diagnostic is at error
    level. *)
Lemma single_method_mismatch_is_not_fatal :
  let r := BindMultiObjectMethod "/user" Sample.userPtr "Bad" in
  (exists mth, MethodByName (oType Sample.userPtr) "Bad" = Some mth /\
               conforms mth = false) /\
  r = Aborted [ErrorInvalidRouteMethod "app/controller" "(*User)" "Bad" "func()"] /\
  hasFatal r = false.
Proof.
  split; [|split; reflexivity].
  eexists. split; reflexivity.
Qed.

(** C4 (counterexample). [Bad] is requested by name in whole-object mode and
    its signature does not match: the diagnostic is at error level, not
    fatal. *)
Lemma named_mismatch_is_not_fatal :
  let r := BindMultiObject "/user" Sample.userPtr ["Bad"] in
  logOf r = [ErrorInvalidRouteMethod "app/controller" "(*User)" "Bad" "func()"] /\
  hasFatal r = false.
Proof. split; reflexivity. Qed.

(** ** The theorems at sample inputs *)

Lemma sample_indexKeysOk :
  indexKeysOk "/user@default" "User" (methodsOf (TPtr Sample.userT)).
Proof.
  intros mth Hin Ha. simpl in Hin.
  repeat (apply elem_of_cons in Hin as [->|Hin]);
    try (by apply elem_of_nil in Hin);
    try (vm_compute in Ha; discriminate).
  eexists. vm_compute. reflexivity.
Defined.

Lemma dispatch_contains_user_panics_witness :
  let d := dispatcherOf Sample.boomPtr Sample.boomT "Get" in
  let s := initState Sample.heap0 in
  wfState s /\ routeReady d s /\ servable d = true /\
  exists new,
    contained (dispatch d (Sample.req 1) s) = true /\
    stReported (stateOf (dispatch d (Sample.req 1) s)) = stReported s ++ new /\
    new <> [] /\
    (forall r2,
       contained (dispatch d r2 (stateOf (dispatch d (Sample.req 1) s))) = true).
Proof.
  intros d s.
  pose proof (initState_wf Sample.heap0) as Hwf.
  pose proof (initState_ready d Sample.heap0) as Hready.
  split; [exact Hwf|]. split; [exact Hready|]. split; [reflexivity|].
  destruct (dispatch_contains_user_panics d (Sample.req 1) s Hwf Hready eq_refl)
    as (new & Hc & Hrep & _ & Hpan & _ & _ & _ & Hnext).
  exists new. split; [exact Hc|]. split; [exact Hrep|]. split; [|exact Hnext].
  apply (Hpan "Get" (Sample.meth "Get" SigHandler Sample.boom));
    [right; by left | reflexivity |].
  intros rcv r h. exists "boom", h. reflexivity.
Defined.

Lemma dispatch_phase_order_witness :
  let d := dispatcherOf Sample.userPtr Sample.userT "Inc" in
  let r := Sample.req 1 in
  let s := initState Sample.heap0 in
  wfState s /\ routeReady d s /\ servable d = true /\
  exists pid s0 o s1,
    acquirePool d s = (pid, s0) /\
    poolGet pid s0 = Got o s1 /\
    let calls :=
      hookEvents PhaseInit (initFunc o) (infoId o) r
      ++ [EvCall (PhaseMethod "Inc") (infoId o) r]
      ++ hookEvents PhaseShut (shutFunc o) (infoId o) r in
    match dispatch d r s with
    | Done s' =>
        stTrace s' = stTrace s ++ [EvGet (infoId o)] ++ calls ++ [EvPut (infoId o)]
    | Unwound s' =>
        exists k, stTrace s' = stTrace s ++ [EvGet (infoId o)] ++ take k calls
    | Fault _ _ => False
    end.
Proof.
  intros d r s.
  split; [apply initState_wf|]. split; [apply initState_ready|].
  split; [reflexivity|].
  apply (dispatch_phase_order d r s);
    [apply initState_wf | apply initState_ready | reflexivity].
Defined.

Lemma single_method_rejections_witness :
  Elem (wrapStruct (oType Sample.userPtr)) = Some Sample.userT /\
  doBindMultiObjectMethod "/user" Sample.userPtr "Nope" [] ""
    = Aborted [FatalInvalidMethodName "Nope"] /\
  doBindMultiObjectMethod "/user" Sample.userPtr " Bad " [] ""
    = Aborted [ErrorInvalidRouteMethod "app/controller" "(*User)" "Bad" "func()"].
Proof.
  split; [reflexivity|]. split.
  - apply (@single_method_rejections Sample.env "/user" Sample.userPtr "Nope" [] ""
             Sample.userT ∅ eq_refl). reflexivity.
  - destruct (@single_method_rejections Sample.env "/user" Sample.userPtr " Bad " [] ""
                Sample.userT ∅ eq_refl) as [_ Hbad].
    apply (Hbad (Sample.meth "Bad" (SigOther "func()") Sample.nop) "func()");
      reflexivity.
Defined.

Lemma whole_object_signature_mismatch_witness :
  oType Sample.userPtr = TPtr Sample.userT /\
  parsePattern "/user" = inl ("default", "ALL", "/user") /\
  exists m log,
    doBindMultiObject "/user" Sample.userPtr "Bad, Get" [] "" = Bound m log /\
    (exists d, d ∈ log /\ diagMethod d = Some "Bad" /\ levelOf d = LError) /\
    (forall d, d ∈ log -> levelOf d <> LFatal) /\
    is_Some (m !! "/user/get@default").
Proof.
  split; [reflexivity|]. split; [reflexivity|].
  destruct (@whole_object_signature_mismatch Sample.env "/user" Sample.userPtr "Bad, Get" [] ""
              Sample.userT "default" "ALL" "/user" eq_refl eq_refl sample_indexKeysOk)
    as (m & log & Hb & Hdiag & Hnf & _ & Hreg).
  exists m, log. split; [exact Hb|]. split; [|split; [exact Hnf|]].
  - apply (Hdiag (Sample.meth "Bad" (SigOther "func()") Sample.nop));
      [simpl; by left | reflexivity | reflexivity].
  - apply (Hreg (Sample.meth "Get" SigHandler Sample.nop));
      [simpl; right; by left | reflexivity | reflexivity].
Defined.

Lemma index_alias_registered_witness :
  oType Sample.userPtr = TPtr Sample.userT /\
  parsePattern "/user" = inl ("default", "ALL", "/user") /\
  exists m log,
    doBindMultiObject "/user" Sample.userPtr "" [] "" = Bound m log /\
    is_Some (m !! "/user/index@default") /\
    is_Some (m !! "/user@default").
Proof.
  split; [reflexivity|]. split; [reflexivity|].
  destruct (@index_alias_registered Sample.env "/user" Sample.userPtr "" [] ""
              Sample.userT "default" "ALL" "/user"
              (Sample.meth "Index" SigHandler Sample.nop)
              eq_refl eq_refl sample_indexKeysOk)
    as (m & log & Hb & Halias & _);
    [simpl; do 3 right; by left | reflexivity | reflexivity | reflexivity |].
  exists m, log. split; [exact Hb|].
  destruct (Halias eq_refl) as (p & Hp & Hk & Ha & _).
  vm_compute in Hp. inversion Hp; subst p.
  split; [exact Hk | exact Ha].
Defined.

Lemma rest_binds_verbs_only_witness :
  oType Sample.userPtr = TPtr Sample.userT /\
  exists m log,
    doBindMultiObjectRest "/user" Sample.userPtr [] "" = Bound m log /\
    is_Some (m !! "Get:/user") /\ is_Some (m !! "Post:/user") /\
    (forall k it, m !! k = Some it ->
       methodsMap (ToUpper (dMethod (itemFunc it))) = true).
Proof.
  split; [reflexivity|].
  destruct (@rest_binds_verbs_only Sample.env "/user" Sample.userPtr [] "" Sample.userT eq_refl)
    as (m & log & Hb & Hkeys & Hverbs & _).
  exists m, log. split; [exact Hb|]. split; [|split; [|exact Hverbs]].
  - apply Hkeys. exists (Sample.meth "Get" SigHandler Sample.nop).
    split; [simpl; right; by left|]. split; [reflexivity|]. split; reflexivity.
  - apply Hkeys. exists (Sample.meth "Post" SigHandler Sample.nop).
    split; [simpl; do 5 right; by left|]. split; [reflexivity|]. split; reflexivity.
Defined.

Lemma struct_value_binding_panics_witness :
  oType Sample.userVal = TNamed (Sample.userInfo Sample.userMethods) /\
  tIsStruct (Sample.userInfo Sample.userMethods) = true /\
  (exists log,
     BindMultiObject "/user" Sample.userVal [] = BindPanic PanicElemOfInvalidType log) /\
  BindMultiObjectMethod "/user" Sample.userVal "Get"
    = BindPanic PanicElemOfInvalidType [] /\
  (exists log,
     BindMultiObjectRest "/user" Sample.userVal = BindPanic PanicElemOfInvalidType log).
Proof.
  split; [reflexivity|]. split; [reflexivity|].
  destruct (@struct_value_binding_panics Sample.env "/user" Sample.userVal
              (Sample.userInfo Sample.userMethods) eq_refl eq_refl)
    as (Hwhole & Hone & Hrest).
  split; [|split].
  - apply (Hwhole [] "default" "ALL" "/user" eq_refl).
    exists (Sample.meth "Get" SigHandler Sample.nop).
    split; [simpl; right; by left|]. split; reflexivity.
  - apply (Hone "Get" (Sample.meth "Get" SigHandler Sample.nop)); reflexivity.
  - apply Hrest. exists (Sample.meth "Get" SigHandler Sample.nop).
    split; [simpl; right; by left|]. split; reflexivity.
Defined.

(** * Further properties of registration *)

Section MoreLoopFacts.
Variable step : method -> gmap string handlerItem -> list diag -> loopState.
Variable written : method -> list string.
Variable itemFor : method -> handlerItem.
Hypothesis step_lookup : forall mth m log m' log' k,
  step mth m log = Running m' log' ->
  m' !! k = if bool_decide (k ∈ written mth) then Some (itemFor mth) else m !! k.



(** The keys of the final map: those of the start and those written. *)
Lemma loop_keys ms m log m' log' k :
  runLoop step ms (Running m log) = Running m' log' ->
  is_Some (m' !! k) <->
  is_Some (m !! k) \/ exists mth, mth ∈ ms /\ k ∈ written mth.
Proof.
  intros Hrun. split.
  - intros [it Hk].
    destruct (loop_items step written itemFor step_lookup _ _ _ _ _ _ _ Hrun Hk)
      as [Hm|(mth & Hin & Hw & _)]; [left; eauto | right; eauto].
  - intros [Hm|(mth & Hin & Hw)].
    + exact (loop_keeps_keys step written itemFor step_lookup _ _ _ _ _ _ Hrun Hm).
    + exact (loop_registers step written itemFor step_lookup _ _ _ _ _ _ _ Hrun Hin Hw).
Qed.

(** A loop that one of its turns stops ends stopped. *)
Lemma loop_stops ms (P : method -> Prop) :
  (forall mth m log, P mth -> exists p log', step mth m log = Stopped p log') ->
  (exists mth, mth ∈ ms /\ P mth) ->
  forall m log, exists p log', runLoop step ms (Running m log) = Stopped p log'.
Proof.
  intros Hstop. induction ms as [|x ms IH]; intros (mth & Hin & HP) m log.
  - by apply elem_of_nil in Hin.
  - simpl. destruct (step x m log) as [m1 log1|p1 log1] eqn:Hst.
    + apply IH. apply elem_of_cons in Hin as [->|Hin]; [|eauto].
      destruct (Hstop _ m log HP) as (p & log' & Hs). congruence.
    + rewrite runLoop_stopped. eauto.
Qed.

End MoreLoopFacts.

Section MoreBindingFacts.
Context `{Env}.

Lemma scanned_not_hook filter mth :
  scanned filter mth = true -> mName mth <> "Init" /\ mName mth <> "Shut".
Proof.
  unfold scanned. intros [_ Hn]%andb_prop. apply negb_true_iff in Hn.
  apply orb_false_elim in Hn as [H1 H2].
  split; intros Heq; rewrite Heq in *; discriminate.
Qed.

Lemma keysWritten_elem pattern te filter mth k :
  k ∈ keysWritten pattern te filter mth <->
  scanned filter mth = true /\ conforms mth = true /\
  (k = objectKey pattern te mth \/
   aliased pattern mth = true /\ indexAlias (objectKey pattern te mth) = Some k).
Proof.
  unfold keysWritten.
  destruct (scanned filter mth), (conforms mth); simpl;
    try (split; [by intros ?%elem_of_nil | by intros (? & ? & _)]).
  destruct (aliased pattern mth).
  - destruct (indexAlias (objectKey pattern te mth)) as [a|].
    + split.
      * intros [->|Hk%list_elem_of_singleton]%elem_of_cons; [naive_solver|].
        subst k. split_and!; try done. by right.
      * intros (_ & _ & [->|[_ [= ->]]]); [by left|]. right. by left.
    + split.
      * intros ->%list_elem_of_singleton. split_and!; try done. by left.
      * intros (_ & _ & [->|[_ ?]]); [by left|done].
  - split.
    + intros ->%list_elem_of_singleton. split_and!; try done. by left.
    + intros (_ & _ & [->|[? _]]); [by left|done].
Qed.

(** A turn of the whole-object loop for a method that does not reach
    registration, whatever the object is. *)
Lemma bindObjectStep_skips pattern sn pkg t object filter mw src mth m log :
  scanned filter mth && conforms mth = false ->
  bindObjectStep pattern sn pkg t object filter mw src mth m log
  = Running m (log ++ mismatchDiag filter pkg (objNameOf (typeString t) pkg) mth).
Proof.
  unfold bindObjectStep, mismatchDiag, scanned, conforms.
  destruct (inFilter filter (mName mth)); simpl; [|by rewrite app_nil_r].
  destruct (String.eqb (mName mth) "Init" || String.eqb (mName mth) "Shut");
    simpl; [by rewrite app_nil_r|].
  destruct (mSig mth); [discriminate|]. intros _.
  by destruct (filterGiven filter).
Qed.

Lemma bindRestStep_skips pattern sn pkg t object mw src mth m log :
  isVerb mth && conforms mth = false ->
  bindRestStep pattern sn pkg t object mw src mth m log
  = Running m (log ++ restDiag pkg (objNameOf (typeString t) pkg) mth).
Proof.
  unfold bindRestStep, restDiag, isVerb, conforms.
  destruct (methodsMap (ToUpper (mName mth))); simpl; [|by rewrite app_nil_r].
  by destruct (mSig mth).
Qed.

Lemma loop_all_skipped step (dg : method -> list diag) ms :
  (forall mth m log, mth ∈ ms -> step mth m log = Running m (log ++ dg mth)) ->
  forall m log, runLoop step ms (Running m log) = Running m (log ++ flat_map dg ms).
Proof.
  induction ms as [|x ms IH]; intros Hskip m log; simpl.
  - by rewrite app_nil_r.
  - rewrite Hskip by (by left). rewrite IH.
    + by rewrite <- app_assoc.
    + intros mth m0 log0 Hin. apply Hskip. by right.
Qed.

Lemma flat_map_nothing {A B} (l : list A) : flat_map (fun _ : A => @nil B) l = [].
Proof. by induction l. Qed.

Lemma mismatchDiag_count filter pkg objName ms :
  List.length (flat_map (mismatchDiag filter pkg objName) ms)
  = List.length (List.filter (fun mth => scanned filter mth && negb (conforms mth)) ms).
Proof.
  induction ms as [|x ms IH]; [reflexivity|].
  simpl. rewrite length_app, IH. unfold mismatchDiag at 1. unfold conforms.
  destruct (scanned filter x); simpl; [|reflexivity].
  destruct (mSig x); simpl; [reflexivity|].
  by destruct (filterGiven filter).
Qed.

Lemma restDiag_count pkg objName ms :
  List.length (flat_map (restDiag pkg objName) ms)
  = List.length (List.filter (fun mth => isVerb mth && negb (conforms mth)) ms).
Proof.
  induction ms as [|x ms IH]; [reflexivity|].
  simpl. rewrite length_app, IH. unfold restDiag at 1. unfold conforms.
  destruct (isVerb x); simpl; [|reflexivity].
  by destruct (mSig x).
Qed.

(** X1. Whole-object mode on a pointer object: the keys handed to the router
    are exactly the first keys of the scanned methods with a matching
    signature and, for those that get one, their key of the main URI. *)
Theorem whole_object_keys_exact
    pattern object method mw src te domain method' path :
  oType object = TPtr te ->
  parsePattern pattern = inl (domain, method', path) ->
  indexKeysOk (effectivePattern pattern domain method' path) (Name te)
              (methodsOf (TPtr te)) ->
  let pat := effectivePattern pattern domain method' path in
  exists m log,
    doBindMultiObject pattern object method mw src = Bound m log /\
    forall k, is_Some (m !! k) <->
      exists mth, mth ∈ methodsOf (TPtr te) /\
        scanned (methodFilter method) mth = true /\ conforms mth = true /\
        (k = mergeBuildInNameToPattern pat (Name te) (mName mth) true \/
         aliased pat mth = true /\
         indexAlias (mergeBuildInNameToPattern pat (Name te) (mName mth) true)
         = Some k).
Proof.
  intros Ht Hp Hok pat.
  rewrite (doBindMultiObject_ptr _ _ _ _ _ _ _ _ _ Ht Hp). fold pat.
  destruct (loop_runs pat te object (methodFilter method) mw src Ht _ Hok ∅ [])
    as [m Hrun].
  rewrite Hrun. simpl finish. eexists _, _. split; [reflexivity|].
  intros k.
  rewrite (loop_keys _ _ _ (step_lookup pat te object (methodFilter method) mw src Ht)
             _ _ _ _ _ k Hrun).
  rewrite lookup_empty. split.
  - intros [[? ?]|(mth & Hin & Hw)]; [done|].
    apply keysWritten_elem in Hw. exists mth. done.
  - intros (mth & Hin & Hw). right. exists mth. split; [done|].
    by apply keysWritten_elem.
Qed.

(** X2. Whole-object mode on a pointer object: the diagnostics are one per
    scanned method with a mismatching signature, in the order of the
    methods, and nothing else; a method outside the filter, a lifecycle hook
    and a registered method get none. *)
Theorem whole_object_diagnostics_exact
    pattern object method mw src te domain method' path :
  oType object = TPtr te ->
  parsePattern pattern = inl (domain, method', path) ->
  indexKeysOk (effectivePattern pattern domain method' path) (Name te)
              (methodsOf (TPtr te)) ->
  exists m,
    doBindMultiObject pattern object method mw src
    = Bound m (flat_map (mismatchDiag (methodFilter method) (PkgPath te) (objNameFor te))
                        (methodsOf (TPtr te))) /\
    List.length (flat_map (mismatchDiag (methodFilter method) (PkgPath te) (objNameFor te))
                          (methodsOf (TPtr te)))
    = List.length (List.filter
                     (fun mth => scanned (methodFilter method) mth && negb (conforms mth))
                     (methodsOf (TPtr te))).
Proof.
  intros Ht Hp Hok.
  rewrite (doBindMultiObject_ptr _ _ _ _ _ _ _ _ _ Ht Hp).
  destruct (loop_runs _ te object (methodFilter method) mw src Ht _ Hok ∅ [])
    as [m Hrun].
  rewrite Hrun. exists m. split; [reflexivity|]. apply mismatchDiag_count.
Qed.

(** X3. Whole-object mode never binds [Init] or [Shut], whatever their
    signature, and never reports them. *)
Theorem whole_object_skips_lifecycle_hooks
    pattern object method mw src te domain method' path :
  oType object = TPtr te ->
  parsePattern pattern = inl (domain, method', path) ->
  indexKeysOk (effectivePattern pattern domain method' path) (Name te)
              (methodsOf (TPtr te)) ->
  exists m log,
    doBindMultiObject pattern object method mw src = Bound m log /\
    (forall k it, m !! k = Some it ->
       dMethod (itemFunc it) <> "Init" /\ dMethod (itemFunc it) <> "Shut") /\
    (forall d, d ∈ log ->
       diagMethod d <> Some "Init" /\ diagMethod d <> Some "Shut").
Proof.
  intros Ht Hp Hok.
  rewrite (doBindMultiObject_ptr _ _ _ _ _ _ _ _ _ Ht Hp).
  destruct (loop_runs _ te object (methodFilter method) mw src Ht _ Hok ∅ [])
    as [m Hrun].
  rewrite Hrun. simpl finish. eexists _, _. split; [reflexivity|]. split.
  - intros k it Hk.
    destruct (loop_items _ _ _ (step_lookup _ te object (methodFilter method) mw src Ht)
                _ _ _ _ _ _ _ Hrun Hk) as [He|(mth & _ & Hw & ->)].
    + by rewrite lookup_empty in He.
    + apply written_scanned_conforms in Hw as [Hs _].
      exact (scanned_not_hook _ _ Hs).
  - intros d (mth & _ & Hd)%elem_of_flat_map.
    apply mismatchDiag_level in Hd as (Hm & _ & Hs & _).
    destruct (scanned_not_hook _ _ Hs) as [H1 H2]. rewrite Hm.
    split; intros [= Heq]; done.
Qed.

(** X4. A filter that names no method of the object binds nothing and
    reports nothing: whole-object mode has no "unknown method" error, also
    for a struct passed by value. *)
Theorem unknown_filter_names_bind_nothing
    pattern object method mw src te domain method' path :
  Elem (wrapStruct (oType object)) = Some te ->
  parsePattern pattern = inl (domain, method', path) ->
  (forall mth, mth ∈ methodsOf (wrapStruct (oType object)) ->
     inFilter (methodFilter method) (mName mth) = false) ->
  doBindMultiObject pattern object method mw src = Bound ∅ [].
Proof.
  intros He Hp Hno. unfold doBindMultiObject. rewrite Hp, He.
  rewrite (loop_all_skipped _ (fun _ => [])).
  - simpl. by rewrite flat_map_nothing.
  - intros mth m log Hin. rewrite bindObjectStep_skips.
    + unfold mismatchDiag, scanned. by rewrite (Hno mth Hin).
    + unfold scanned. by rewrite (Hno mth Hin).
Qed.


(** X6. Every item a binding call hands to the router, in whole-object and
    in REST mode, carries the caller's middleware and source unchanged, is
    of the handler type, and dispatches on the object that was bound, under
    the name of its struct. *)
Theorem items_carry_caller_data pattern object mw src te :
  oType object = TPtr te ->
  let good (it : handlerItem) :=
    middleware it = mw /\ source it = src /\ itemType it = handlerTypeHandler /\
    dObject (itemFunc it) = object /\ dStructName (itemFunc it) = Name te in
  (forall method domain method' path m log,
     parsePattern pattern = inl (domain, method', path) ->
     doBindMultiObject pattern object method mw src = Bound m log ->
     forall k it, m !! k = Some it -> good it) /\
  (exists m log,
     doBindMultiObjectRest pattern object mw src = Bound m log /\
     forall k it, m !! k = Some it -> good it).
Proof.
  intros Ht good. split.
  - intros method domain method' path m log Hp.
    rewrite (doBindMultiObject_ptr _ _ _ _ _ _ _ _ _ Ht Hp).
    destruct (runLoop _ _ _) as [m0 log0|p0 log0] eqn:Hrun; [|discriminate].
    intros [= <- <-] k it Hk.
    destruct (loop_items _ _ _
                (step_lookup _ te object (methodFilter method) mw src Ht)
                _ _ _ _ _ _ _ Hrun Hk) as [He|(mth & _ & _ & ->)].
    + by rewrite lookup_empty in He.
    + by unfold good.
  - rewrite (doBindMultiObjectRest_ptr _ _ _ _ _ Ht).
    destruct (rest_loop_runs pattern te object mw src Ht (methodsOf (TPtr te)) ∅ [])
      as [m Hrun].
    rewrite Hrun. simpl finish. eexists _, _. split; [reflexivity|].
    intros k it Hk.
    destruct (loop_items _ _ _ (rest_step_lookup pattern te object mw src Ht)
                _ _ _ _ _ _ _ Hrun Hk) as [He|(mth & _ & _ & ->)].
    + by rewrite lookup_empty in He.
    + by unfold good.
Qed.

Lemma pointer_loop_stops_on_slice pattern te object filter mw src ms :
  oType object = TPtr te ->
  forall m log p log',
    runLoop (bindObjectStep pattern (Name te) (PkgPath te) (TPtr te) object filter mw src)
            ms (Running m log) = Stopped p log' ->
    p = PanicSliceBounds.
Proof.
  intros Ht. induction ms as [|x ms IH]; intros m log p log'; simpl; [discriminate|].
  rewrite (step_cases pattern te object filter mw src Ht).
  destruct (negb (scanned filter x)); [apply IH|].
  destruct (conforms x); [|apply IH].
  destruct (aliased pattern x); [|apply IH].
  destruct (indexAlias (objectKey pattern te x)); [apply IH|].
  rewrite runLoop_stopped. by intros [= <- _].
Qed.

(** X7. The slice of line 230 out of range: when the key built for a method
    that gets the key of the main URI holds no [/index] in any case,
    [PosRI] gives -1, the binding call panics, and nothing is registered. *)
Theorem index_key_without_index_panics
    pattern object method mw src te domain method' path mth :
  oType object = TPtr te ->
  parsePattern pattern = inl (domain, method', path) ->
  let pat := effectivePattern pattern domain method' path in
  mth ∈ methodsOf (TPtr te) ->
  scanned (methodFilter method) mth = true ->
  conforms mth = true ->
  aliased pat mth = true ->
  PosRI (mergeBuildInNameToPattern pat (Name te) (mName mth) true) "/index" = None ->
  forall routes,
  exists log,
    doBindMultiObject pattern object method mw src = BindPanic PanicSliceBounds log /\
    routesAfter (doBindMultiObject pattern object method mw src) routes = routes.
Proof.
  intros Ht Hp pat Hin Hs Hc Ha Hpos routes.
  rewrite (doBindMultiObject_ptr _ _ _ _ _ _ _ _ _ Ht Hp). fold pat.
  destruct (loop_stops
              (bindObjectStep pat (Name te) (PkgPath te) (TPtr te) object
                 (methodFilter method) mw src)
              (methodsOf (TPtr te))
              (fun x => scanned (methodFilter method) x = true /\ conforms x = true /\
                        aliased pat x = true /\ indexAlias (objectKey pat te x) = None))
    with (m := (∅ : gmap string handlerItem)) (log := @nil diag)
    as (p & log' & Hrun).
  - intros x m log (Hs' & Hc' & Ha' & Hi').
    rewrite (step_cases pat te object (methodFilter method) mw src Ht).
    rewrite Hs', Hc', Ha', Hi'. simpl. eauto.
  - exists mth. split_and!; try done.
    unfold indexAlias, objectKey. by rewrite Hpos.
  - rewrite Hrun.
    rewrite (pointer_loop_stops_on_slice _ _ _ _ _ _ _ Ht _ _ _ _ Hrun).
    exists log'. done.
Qed.

(** X8. A binding call that finds no method to register returns normally
    with an empty map, also for a struct passed by value: in whole-object
    mode with the diagnostics of the scanned methods, in REST mode with those
    of the verb-named ones. *)
Theorem nothing_to_register_completes pattern object mw src te :
  Elem (wrapStruct (oType object)) = Some te ->
  let t := wrapStruct (oType object) in
  let objName := objNameOf (typeString t) (PkgPath te) in
  (forall method domain method' path,
     parsePattern pattern = inl (domain, method', path) ->
     (forall mth, mth ∈ methodsOf t ->
        scanned (methodFilter method) mth && conforms mth = false) ->
     doBindMultiObject pattern object method mw src
     = Bound ∅ (flat_map (mismatchDiag (methodFilter method) (PkgPath te) objName)
                         (methodsOf t))) /\
  ((forall mth, mth ∈ methodsOf t -> isVerb mth && conforms mth = false) ->
   doBindMultiObjectRest pattern object mw src
   = Bound ∅ (flat_map (restDiag (PkgPath te) objName) (methodsOf t))).
Proof.
  intros He t objName. split.
  - intros method domain method' path Hp Hno.
    unfold doBindMultiObject. rewrite Hp, He.
    rewrite (loop_all_skipped _
               (mismatchDiag (methodFilter method) (PkgPath te) objName)); [done|].
    intros mth m log Hin. by apply bindObjectStep_skips, Hno.
  - intros Hno. unfold doBindMultiObjectRest. rewrite He.
    rewrite (loop_all_skipped _ (restDiag (PkgPath te) objName)); [done|].
    intros mth m log Hin. by apply bindRestStep_skips, Hno.
Qed.

(** X9. REST mode on a pointer object: the diagnostics are one error per
    verb-named method with a mismatching signature, in the order of the
    methods, and nothing else. *)
Theorem rest_diagnostics_exact pattern object mw src te :
  oType object = TPtr te ->
  exists m,
    doBindMultiObjectRest pattern object mw src
    = Bound m (flat_map (restDiag (PkgPath te) (objNameFor te)) (methodsOf (TPtr te))) /\
    (forall mth, mth ∈ methodsOf (TPtr te) -> isVerb mth = true ->
       forall typ, mSig mth = SigOther typ ->
       ErrorInvalidRouteMethod (PkgPath te) (objNameFor te) (mName mth) typ
       ∈ flat_map (restDiag (PkgPath te) (objNameFor te)) (methodsOf (TPtr te))) /\
    List.length (flat_map (restDiag (PkgPath te) (objNameFor te)) (methodsOf (TPtr te)))
    = List.length (List.filter (fun mth => isVerb mth && negb (conforms mth))
                               (methodsOf (TPtr te))).
Proof.
  intros Ht. rewrite (doBindMultiObjectRest_ptr _ _ _ _ _ Ht).
  destruct (rest_loop_runs pattern te object mw src Ht (methodsOf (TPtr te)) ∅ [])
    as [m Hrun].
  rewrite Hrun. exists m. split; [reflexivity|]. split.
  - intros mth Hin Hv typ Hsig. apply elem_of_flat_map. exists mth.
    split; [done|]. unfold restDiag. rewrite Hv, Hsig. by left.
  - apply restDiag_count.
Qed.

End MoreBindingFacts.

(** ** The key of the main URI *)

Section IndexAliasFacts.














End IndexAliasFacts.

(** * Further properties of dispatch *)

Section MoreDispatchFacts.
Context `{FailureBoundary}.

(** A guarded call of code that returns goes on and reports nothing. *)
Lemma callPhase_returns ph id r f s h :
  f r (stHeap s) = UReturn h ->
  callPhase ph id r f s = Continue (setHeap h (logEvent (EvCall ph id r) s)).
Proof. intros Hf. unfold callPhase, niceCallFunc. simpl. by rewrite Hf. Qed.

Lemma callHook_quiet ph t v name hook id r s :
  hook = hookOf t v name ->
  hookConforms t name = true ->
  (forall m, MethodByName t name = Some m -> neverPanics (mBody m)) ->
  exists s2, callHook ph hook id r s = Continue s2 /\
             stReported s2 = stReported s /\ stPools s2 = stPools s.
Proof.
  intros -> Hc Hnp. unfold hookOf.
  destruct (MethodByName t name) as [m|] eqn:Hm; simpl.
  - unfold hookConforms in Hc. rewrite Hm in Hc. unfold conforms in Hc.
    unfold asHandler. destruct (mSig m); [|discriminate]. simpl.
    destruct (Hnp m eq_refl v r (stHeap s)) as [h' Hr].
    rewrite (callPhase_returns _ _ _ _ _ _ Hr). eauto.
  - eauto.
Qed.

(** X11. A request none of whose hooks and handler panics runs the closure
    to its end and reports nothing, whatever the failure boundary would do
    with a fault. *)
Theorem dispatch_without_fault d r s :
  wfState s -> routeReady d s -> servable d = true ->
  (forall name m, name ∈ ["Init"; dMethod d; "Shut"] ->
     MethodByName (oType (dObject d)) name = Some m -> neverPanics (mBody m)) ->
  exists s', dispatch d r s = Done s' /\ stReported s' = stReported s.
Proof.
  intros Hwf Hready Hserv Hquiet.
  destruct (acquirePool_spec d s Hwf Hready)
    as (pid & s0 & p & Hacq & Hp & [Hty Hidle] & _ & _ & _ & Hr0 & _).
  pose proof Hserv as Hserv'. unfold servable in Hserv'.
  apply andb_prop in Hserv' as [Hserv' Hshut].
  apply andb_prop in Hserv' as [Hmeth Hinit].
  rewrite <- Hty in Hmeth, Hinit, Hshut, Hquiet.
  destruct (poolGet_ready pid s0 p Hp Hidle Hinit Hshut)
    as (o & s1 & rest & Hget & Hent & _ & _ & _ & Hr1 & Hp1 & _).
  destruct (callTarget_conforming (poolNew p) o (dMethod d) r Hent Hmeth)
    as (f & o' & Hf & Hcall & _ & _ & _ & Hsh).
  destruct Hent as (_ & _ & Hei & Hes & _).
  unfold dispatch. rewrite Hacq. unfold serve, borrow. rewrite Hget.
  unfold serveWith.
  destruct (callHook_quiet PhaseInit _ _ "Init" (initFunc o) (infoId o) r
              (logEvent (EvGet (infoId o)) s1) Hei Hinit)
    as (s2 & -> & R2 & _).
  { intros m Hm. apply (Hquiet "Init"); [by left|done]. }
  rewrite Hcall.
  destruct (methodConforms_hookOf _ (oValue (poolNew p)) _ Hmeth) as (m & Hm & Hhook).
  rewrite Hhook in Hf. injection Hf as <-.
  destruct (Hquiet (dMethod d) m (ltac:(right; by left)) Hm
              (oValue (poolNew p)) r (stHeap s2)) as [h3 Hr3].
  rewrite (callPhase_returns _ _ _ _ _ _ Hr3).
  rewrite Hsh in *.
  destruct (callHook_quiet PhaseShut _ _ "Shut" (shutFunc o) (infoId o') r
              (setHeap h3 (logEvent (EvCall (PhaseMethod (dMethod d)) (infoId o) r) s2))
              Hes Hshut)
    as (s4 & -> & R4 & _).
  { intros m' Hm'. apply (Hquiet "Shut"); [do 2 right; by left|done]. }
  eexists. split; [reflexivity|].
  unfold poolPut. destruct (stPools s4 !! pid); simpl; rewrite R4; simpl;
    rewrite R2; simpl; congruence.
Qed.

End MoreDispatchFacts.

(** ** The registry and the pools over many requests *)

Section MoreRegistryFacts.
Context `{FailureBoundary}.

(** The factory of a pool is fixed when the pool is made. *)
Lemma poolGet_factory pid s o s1 q p :
  poolGet pid s = Got o s1 -> stPools s !! q = Some p ->
  exists p', stPools s1 !! q = Some p' /\ poolNew p' = poolNew p.
Proof.
  unfold poolGet. intros Hget Hq.
  destruct (stPools s !! pid) as [p0|] eqn:Hp; [|discriminate].
  destruct (poolIdle p0) as [|x rest].
  - destruct (newInfo (poolNew p0) (stNextInfo s)); [discriminate|].
    injection Hget as <- <-. simpl. eauto.
  - injection Hget as <- <-. simpl.
    destruct (decide (q = pid)) as [->|Hne].
    + rewrite list_lookup_insert_eq by (by eapply lookup_lt_Some).
      eexists. split; [reflexivity|]. simpl. congruence.
    + rewrite list_lookup_insert_ne by done. eauto.
Qed.

Lemma poolPut_factory pid o s q p :
  stPools s !! q = Some p ->
  exists p', stPools (poolPut pid o s) !! q = Some p' /\ poolNew p' = poolNew p.
Proof.
  unfold poolPut. intros Hq.
  destruct (stPools s !! pid) as [p0|] eqn:Hp; [|eauto]. simpl.
  destruct (decide (q = pid)) as [->|Hne].
  - rewrite list_lookup_insert_eq by (by eapply lookup_lt_Some).
    eexists. split; [reflexivity|]. simpl. congruence.
  - rewrite list_lookup_insert_ne by done. eauto.
Qed.

Lemma serveWith_pools d r pid o s1 :
  stPools (stateOf (serveWith d r pid o s1)) = stPools s1 \/
  exists o' s4, stPools s4 = stPools s1 /\
    stPools (stateOf (serveWith d r pid o s1)) = stPools (poolPut pid o' s4).
Proof.
  unfold serveWith.
  destruct (callHook_fields PhaseInit (initFunc o) (infoId o) r s1) as (_ & P2 & _).
  destruct (callHook PhaseInit (initFunc o) (infoId o) r s1) as [s2|s2];
    simpl in P2; [|by left].
  destruct (callTarget o (dMethod d) r s2) as [o' c|p] eqn:Hcall; [|by left].
  destruct (callTarget_frame _ _ _ _ _ _ Hcall) as [_ P3].
  destruct c as [s3|s3]; simpl in P3; [|left; simpl; congruence].
  destruct (callHook_fields PhaseShut (shutFunc o') (infoId o') r s3) as (_ & P4 & _).
  destruct (callHook PhaseShut (shutFunc o') (infoId o') r s3) as [s4|s4];
    simpl in P4; [|left; simpl; congruence].
  right. exists o', s4. split; [congruence|reflexivity].
Qed.

Lemma serve_factory d r pid s q p :
  stPools s !! q = Some p ->
  exists p', stPools (stateOf (serve d r pid s)) !! q = Some p' /\ poolNew p' = poolNew p.
Proof.
  intros Hq. unfold serve, borrow.
  destruct (poolGet pid s) as [o s0|pn] eqn:Hget; [|simpl; eauto].
  destruct (poolGet_factory _ _ _ _ _ _ Hget Hq) as (p0 & Hq0 & Hn0).
  destruct (serveWith_pools d r pid o (logEvent (EvGet (infoId o)) s0))
    as [->|(o' & s4 & P4 & ->)].
  - simpl. eauto.
  - simpl in P4. rewrite <- P4 in Hq0.
    destruct (poolPut_factory pid o' s4 q p0 Hq0) as (p' & Hq' & Hn').
    exists p'. split; [done|congruence].
Qed.

Lemma dispatch_factory d r s q p :
  stPools s !! q = Some p ->
  exists p', stPools (stateOf (dispatch d r s)) !! q = Some p' /\ poolNew p' = poolNew p.
Proof.
  intros Hq. unfold dispatch, acquirePool, lookupPool.
  destruct (stCache s !! dStructName d) as [pid|].
  - by apply serve_factory.
  - unfold insertPool. apply serve_factory. simpl.
    rewrite lookup_app_l by (by eapply lookup_lt_Some). done.
Qed.

(** The pool a first use makes has the object of that route in its
    factory. *)
Lemma dispatch_first_use d r s :
  stCache s !! dStructName d = None ->
  exists p', stPools (stateOf (dispatch d r s)) !! poolCount s = Some p' /\
             poolNew p' = dObject d.
Proof.
  intros Hn. unfold dispatch, acquirePool, lookupPool. rewrite Hn.
  unfold insertPool.
  match goal with |- context [serve d r ?pid ?s0] =>
    destruct (serve_factory d r pid s0 (poolCount s)
                {| poolNew := dObject d; poolIdle := [] |}) as (p' & Hp' & Hn')
  end.
  - simpl. unfold poolCount. rewrite lookup_app_r by done.
    by rewrite Nat.sub_diag.
  - eauto.
Qed.

(** X12. Requests served one after the other never take a name out of the
    registry, never give it another pool and never change the factory of a
    pool: the object a pool builds its entries from is for ever the object of
    the route that first used the name. *)
Theorem registry_keeps_first_pool reqs s name pid p :
  stCache s !! name = Some pid ->
  stPools s !! pid = Some p ->
  stCache (dispatchAll reqs s) !! name = Some pid /\
  (exists p', stPools (dispatchAll reqs s) !! pid = Some p' /\ poolNew p' = poolNew p) /\
  poolCount s <= poolCount (dispatchAll reqs s).
Proof.
  revert s p. induction reqs as [|[d r] rest IH]; intros s p Hc Hp; simpl.
  - split; [done|]. split; [eauto|lia].
  - destruct (dispatch_factory d r s pid p Hp) as (p1 & Hp1 & Hn1).
    assert (Hc1 : stCache (stateOf (dispatch d r s)) !! name = Some pid /\
                  poolCount s <= poolCount (stateOf (dispatch d r s))).
    { destruct (dispatch_registry d r s) as [Hsome Hnone].
      destruct (stCache s !! dStructName d) as [pid0|] eqn:Hl.
      - destruct (Hsome pid0 eq_refl) as [-> ->]. split; [done|lia].
      - destruct (Hnone eq_refl) as [-> ->]. split; [|lia].
        rewrite lookup_insert_ne; [done|]. intros <-. congruence. }
    destruct Hc1 as [Hc1 Hle].
    destruct (IH _ p1 Hc1 Hp1) as (Hc' & (p' & Hp' & Hn') & Hle').
    split; [done|]. split; [|lia].
    exists p'. split; [done|congruence].
Qed.

(** X13. The registry is keyed by the bare struct name, without the package:
    when two routes are bound to objects of different types with the same
    struct name, the second route is served from the pool of the first, on an
    entry built from the first object. When the first type lacks the method of
    the second route, the request does not complete: [Interface()] on the
    invalid method value panics outside the failure boundary (or the run has
    already been unwound at [Init]). *)
Theorem pool_is_shared_by_struct_name d1 d2 r1 r2 h :
  servable d1 = true ->
  dStructName d2 = dStructName d1 ->
  let s1 := stateOf (dispatch d1 r1 (initState h)) in
  (exists p, acquirePool d2 s1 = (0, s1) /\
     stPools s1 !! 0 = Some p /\ poolNew p = dObject d1 /\
     exists o s2, poolGet 0 s1 = Got o s2 /\
       rValType o = oType (dObject d1) /\ rValCell o = oValue (dObject d1)) /\
  poolCount (stateOf (dispatch d2 r2 s1)) = 1 /\
  (MethodByName (oType (dObject d1)) (dMethod d2) = None ->
   match dispatch d2 r2 s1 with
   | Fault pn _ => pn = PanicInterfaceOfZeroValue
   | Unwound _ => True
   | Done _ => False
   end).
Proof.
  intros Hserv Hname s1.
  pose proof (initState_wf h) as Hwf0.
  pose proof (initState_ready d1 h) as Hready0.
  destruct (dispatch_spec d1 r1 (initState h) Hwf0 Hready0 Hserv)
    as (_ & _ & _ & _ & _ & _ & _ & Hwf1 & Hready1 & _).
  fold s1 in Hwf1, Hready1.
  destruct (dispatch_registry d1 r1 (initState h)) as [_ Hnone].
  destruct (Hnone (lookup_empty _)) as [Hc1 Hn1]. fold s1 in Hc1, Hn1.
  change (poolCount (initState h)) with 0 in Hc1, Hn1.
  destruct (dispatch_first_use d1 r1 (initState h) (lookup_empty _))
    as (p & Hp & Hnew). fold s1 in Hp.
  change (poolCount (initState h)) with 0 in Hp.
  assert (Hl : stCache s1 !! dStructName d2 = Some 0).
  { rewrite Hc1, Hname. apply lookup_insert_eq. }
  assert (Hl1 : stCache s1 !! dStructName d1 = Some 0) by (by rewrite <- Hname).
  destruct (Hready1 0 p Hl1 Hp) as [Hty Hidle].
  pose proof Hserv as Hserv'. unfold servable in Hserv'.
  apply andb_prop in Hserv' as [Hserv' Hshut].
  apply andb_prop in Hserv' as [_ Hinit].
  rewrite <- Hty in Hinit, Hshut.
  destruct (poolGet_ready 0 s1 p Hp Hidle Hinit Hshut)
    as (o & s2 & rest & Hget & Hent & _).
  assert (Hacq : acquirePool d2 s1 = (0, s1)).
  { unfold acquirePool, lookupPool. by rewrite Hl. }
  split; [|split].
  - exists p. split_and!; try done. exists o, s2. split; [done|].
    destruct Hent as (Ht & Hv & _). rewrite Ht, Hv, Hnew. done.
  - destruct (dispatch_registry d2 r2 s1) as [Hsome _].
    destruct (Hsome 0 Hl) as [_ ->]. exact Hn1.
  - intros Hmiss. unfold dispatch. rewrite Hacq. unfold serve, borrow. rewrite Hget.
    unfold serveWith.
    destruct (callHook PhaseInit (initFunc o) (infoId o) r2
                (logEvent (EvGet (infoId o)) s2)) as [s3|s3]; [|done].
    unfold callTarget.
    destruct Hent as (Ht & Hv & _ & _ & Hm).
    destruct (methods o !! dMethod d2) as [f|] eqn:Hcached.
    + apply Hm in Hcached. unfold hookOf in Hcached.
      rewrite Hnew, Hmiss in Hcached. discriminate.
    + rewrite Ht, Hnew, Hmiss. reflexivity.
Qed.

End MoreRegistryFacts.

(** ** Single-method mode against whole-object mode *)

Section MoreSingleMethodFacts.
Context `{Env}.

(** X14. A lifecycle hook named explicitly: whole-object mode skips [Init]
    and [Shut] even when the filter asks for them, and binds and reports
    nothing; single-method mode has no such test and registers the hook as a
    route, under the one key built with appending off. *)
Theorem lifecycle_hook_bound_by_name_only
    pattern object mw src te domain method' path name mth :
  oType object = TPtr te ->
  parsePattern pattern = inl (domain, method', path) ->
  name = "Init" \/ name = "Shut" ->
  MethodByName (TPtr te) name = Some mth ->
  conforms mth = true ->
  doBindMultiObject pattern object name mw src = Bound ∅ [] /\
  exists it,
    doBindMultiObjectMethod pattern object name mw src
    = Bound {[ mergeBuildInNameToPattern pattern (Name te) name false := it ]} [] /\
    itemFunc it = dispatcherOf object te name /\
    middleware it = mw /\ source it = src.
Proof.
  intros Ht Hp Hname Hm Hc. split.
  - unfold doBindMultiObject. rewrite Hp, Ht, wrapStruct_ptr. simpl Elem.
    cbv iota beta.
    rewrite (loop_all_skipped _ (fun _ => [])).
    + simpl. by rewrite flat_map_nothing.
    + intros x m log _.
      assert (Hs : scanned (methodFilter name) x = false).
      { unfold scanned. destruct Hname as [-> | ->].
        - change (methodFilter "Init") with (Some ["Init"]). simpl.
          destruct (String.eqb (mName x) "Init"); [|done].
          simpl. reflexivity.
        - change (methodFilter "Shut") with (Some ["Shut"]). simpl.
          destruct (String.eqb (mName x) "Shut"); [|done].
          simpl. by rewrite orb_true_r. }
      rewrite bindObjectStep_skips by (by rewrite Hs).
      unfold mismatchDiag. by rewrite Hs.
  - assert (Htrim : TrimSpace name = name) by (by destruct Hname as [-> | ->]).
    unfold doBindMultiObjectMethod. rewrite Ht, wrapStruct_ptr. simpl Elem.
    cbv iota beta. rewrite Htrim, Hm.
    unfold conforms in Hc. destruct (mSig mth); [|discriminate].
    rewrite (callMultiObjectMethods_ptr _ _ _ Ht).
    eexists. split; [reflexivity|]. done.
Qed.

End MoreSingleMethodFacts.

(** ** The further theorems at sample inputs *)

Lemma whole_object_keys_exact_witness :
  oType Sample.userPtr = TPtr Sample.userT /\
  parsePattern "/user" = inl ("default", "ALL", "/user") /\
  exists m log,
    doBindMultiObject "/user" Sample.userPtr "" [] "" = Bound m log /\
    is_Some (m !! "/user/get@default") /\ is_Some (m !! "/user@default").
Proof.
  split; [reflexivity|]. split; [reflexivity|].
  destruct (@whole_object_keys_exact Sample.env "/user" Sample.userPtr "" [] ""
              Sample.userT "default" "ALL" "/user" eq_refl eq_refl sample_indexKeysOk)
    as (m & log & Hb & Hkeys).
  exists m, log. split; [exact Hb|]. split; apply Hkeys.
  - exists (Sample.meth "Get" SigHandler Sample.nop).
    split; [simpl; right; by left|]. split; [reflexivity|]. split; [reflexivity|].
    left. reflexivity.
  - exists (Sample.meth "Index" SigHandler Sample.nop).
    split; [simpl; do 3 right; by left|]. split; [reflexivity|]. split; [reflexivity|].
    right. split; reflexivity.
Defined.

Lemma whole_object_diagnostics_exact_witness :
  oType Sample.userPtr = TPtr Sample.userT /\
  parsePattern "/user" = inl ("default", "ALL", "/user") /\
  exists m,
    doBindMultiObject "/user" Sample.userPtr "" [] ""
    = Bound m [DebugIgnoreRouteMethod "app/controller" "(*User)" "Bad" "func()"].
Proof.
  split; [reflexivity|]. split; [reflexivity|].
  destruct (@whole_object_diagnostics_exact Sample.env "/user" Sample.userPtr "" [] ""
              Sample.userT "default" "ALL" "/user" eq_refl eq_refl sample_indexKeysOk)
    as (m & Hb & _).
  exists m. exact Hb.
Defined.

Lemma whole_object_skips_lifecycle_hooks_witness :
  oType Sample.userPtr = TPtr Sample.userT /\
  parsePattern "/user" = inl ("default", "ALL", "/user") /\
  (exists mth, MethodByName (TPtr Sample.userT) "Init" = Some mth /\ conforms mth = true) /\
  exists m log,
    doBindMultiObject "/user" Sample.userPtr "Init,Get" [] "" = Bound m log /\
    forall k it, m !! k = Some it -> dMethod (itemFunc it) <> "Init".
Proof.
  split; [reflexivity|]. split; [reflexivity|].
  split; [eexists; split; reflexivity|].
  destruct (@whole_object_skips_lifecycle_hooks Sample.env "/user" Sample.userPtr
              "Init,Get" [] "" Sample.userT "default" "ALL" "/user"
              eq_refl eq_refl sample_indexKeysOk)
    as (m & log & Hb & Hitems & _).
  exists m, log. split; [exact Hb|].
  intros k it Hk. exact (proj1 (Hitems k it Hk)).
Defined.

Lemma unknown_filter_names_bind_nothing_witness :
  Elem (wrapStruct (oType Sample.userVal)) = Some Sample.userT /\
  parsePattern "/user" = inl ("default", "ALL", "/user") /\
  doBindMultiObject "/user" Sample.userVal "Nope, get" [] "" = Bound ∅ [].
Proof.
  split; [reflexivity|]. split; [reflexivity|].
  apply (@unknown_filter_names_bind_nothing Sample.env "/user" Sample.userVal
           "Nope, get" [] "" Sample.userT "default" "ALL" "/user" eq_refl eq_refl).
  intros mth Hin. simpl in Hin.
  repeat (apply elem_of_cons in Hin as [->|Hin]); try reflexivity.
  by apply elem_of_nil in Hin.
Defined.


Lemma items_carry_caller_data_witness :
  oType Sample.userPtr = TPtr Sample.userT /\
  exists m log,
    doBindMultiObjectRest "/user" Sample.userPtr [Sample.nop (VPtr 0)] "router.go"
    = Bound m log /\
    forall k it, m !! k = Some it ->
      middleware it = [Sample.nop (VPtr 0)] /\ source it = "router.go" /\
      dObject (itemFunc it) = Sample.userPtr.
Proof.
  split; [reflexivity|].
  destruct (@items_carry_caller_data Sample.env "/user" Sample.userPtr
              [Sample.nop (VPtr 0)] "router.go" Sample.userT eq_refl)
    as [_ (m & log & Hb & Hgood)].
  exists m, log. split; [exact Hb|].
  intros k it Hk. destruct (Hgood k it Hk) as (Hm & Hs & _ & Ho & _).
  split; [exact Hm|]. split; [exact Hs | exact Ho].
Defined.

Lemma index_key_without_index_panics_witness :
  let idx := Sample.meth "INDEX" SigHandler Sample.nop in
  oType Sample.shoutPtr = TPtr Sample.shoutT /\
  @parsePattern Sample.hyphenEnv "/user" = inl ("default", "ALL", "/user") /\
  @mergeBuildInNameToPattern Sample.hyphenEnv "/user@default" "User" "INDEX" true
  = "/user/i-n-d-e-x@default" /\
  aliased "/user@default" idx = true /\
  exists log,
    @doBindMultiObject Sample.hyphenEnv "/user" Sample.shoutPtr "" [] ""
    = BindPanic PanicSliceBounds log.
Proof.
  intros idx. split; [reflexivity|]. split; [reflexivity|].
  split; [reflexivity|]. split; [reflexivity|].
  destruct (@index_key_without_index_panics Sample.hyphenEnv "/user" Sample.shoutPtr
              "" [] "" Sample.shoutT "default" "ALL" "/user" idx eq_refl eq_refl)
    with (routes := (∅ : gmap string handlerItem)) as (log & Hb & _).
  - simpl. right. by left.
  - reflexivity.
  - reflexivity.
  - reflexivity.
  - reflexivity.
  - exists log. exact Hb.
Defined.

Lemma nothing_to_register_completes_witness :
  Elem (wrapStruct (oType Sample.userVal)) = Some Sample.userT /\
  parsePattern "/user" = inl ("default", "ALL", "/user") /\
  doBindMultiObject "/user" Sample.userVal "Bad" [] ""
  = Bound ∅ [ErrorInvalidRouteMethod "app/controller" "(*User)" "Bad" "func()"].
Proof.
  split; [reflexivity|]. split; [reflexivity|].
  destruct (@nothing_to_register_completes Sample.env "/user" Sample.userVal [] ""
              Sample.userT eq_refl) as [Hwhole _].
  apply (Hwhole "Bad" "default" "ALL" "/user" eq_refl).
  intros mth Hin. simpl in Hin.
  repeat (apply elem_of_cons in Hin as [->|Hin]); try reflexivity.
  by apply elem_of_nil in Hin.
Defined.

Lemma rest_diagnostics_exact_witness :
  oType Sample.userPtr = TPtr Sample.userT /\
  exists m, doBindMultiObjectRest "/user" Sample.userPtr [] "" = Bound m [].
Proof.
  split; [reflexivity|].
  destruct (@rest_diagnostics_exact Sample.env "/user" Sample.userPtr [] ""
              Sample.userT eq_refl) as (m & Hb & _).
  exists m. exact Hb.
Defined.


Lemma dispatch_without_fault_witness :
  let d := dispatcherOf Sample.userPtr Sample.userT "Get" in
  let s := initState Sample.heap0 in
  wfState s /\ routeReady d s /\ servable d = true /\
  exists s', @dispatch Sample.strictBoundary d (Sample.req 1) s = Done s' /\
             stReported s' = [].
Proof.
  intros d s.
  pose proof (initState_wf Sample.heap0) as Hwf.
  pose proof (initState_ready d Sample.heap0) as Hready.
  split; [exact Hwf|]. split; [exact Hready|]. split; [reflexivity|].
  apply (@dispatch_without_fault Sample.strictBoundary d (Sample.req 1) s Hwf Hready eq_refl).
  intros name m Hin Hm.
  repeat (apply elem_of_cons in Hin as [->|Hin]);
    try (by apply elem_of_nil in Hin);
    vm_compute in Hm; injection Hm as <-;
    intros rcv r h; exists h; reflexivity.
Defined.

Lemma registry_keeps_first_pool_witness :
  let d1 := dispatcherOf Sample.userPtr Sample.userT "Get" in
  let d2 := dispatcherOf Sample.adminUserPtr Sample.adminUserT "List" in
  let d3 := dispatcherOf Sample.boomPtr Sample.boomT "Get" in
  let s := stateOf (dispatch d1 (Sample.req 1) (initState Sample.heap0)) in
  let s' := dispatchAll [(d2, Sample.req 2); (d3, Sample.req 3)] s in
  exists p,
    stCache s !! "User" = Some 0 /\ stPools s !! 0 = Some p /\
    poolNew p = Sample.userPtr /\
    stCache s' !! "User" = Some 0 /\
    exists p', stPools s' !! 0 = Some p' /\ poolNew p' = Sample.userPtr.
Proof.
  intros d1 d2 d3 s s'.
  assert (Hp : exists p, stPools s !! 0 = Some p /\ poolNew p = Sample.userPtr).
  { vm_compute. eexists. split; reflexivity. }
  destruct Hp as (p & Hp & Hnew).
  assert (Hc : stCache s !! "User" = Some 0) by (vm_compute; reflexivity).
  exists p. split; [exact Hc|]. split; [exact Hp|]. split; [exact Hnew|].
  destruct (registry_keeps_first_pool [(d2, Sample.req 2); (d3, Sample.req 3)]
              s "User" 0 p Hc Hp) as (Hc' & (p' & Hp' & Hn') & _).
  split; [exact Hc'|]. exists p'. split; [exact Hp'|]. by rewrite Hn'.
Defined.

Lemma pool_is_shared_by_struct_name_witness :
  let d1 := dispatcherOf Sample.userPtr Sample.userT "Get" in
  let d2 := dispatcherOf Sample.adminUserPtr Sample.adminUserT "List" in
  let s1 := stateOf (dispatch d1 (Sample.req 1) (initState Sample.heap0)) in
  servable d1 = true /\ servable d2 = true /\
  dStructName d2 = dStructName d1 /\
  oType (dObject d2) <> oType (dObject d1) /\
  MethodByName (oType (dObject d1)) (dMethod d2) = None /\
  (exists o s2, poolGet 0 s1 = Got o s2 /\ rValCell o = oValue Sample.userPtr) /\
  match dispatch d2 (Sample.req 2) s1 with
  | Fault pn _ => pn = PanicInterfaceOfZeroValue
  | Unwound _ => True
  | Done _ => False
  end.
Proof.
  intros d1 d2 s1.
  split; [reflexivity|]. split; [reflexivity|]. split; [reflexivity|].
  split; [discriminate|]. split; [reflexivity|].
  destruct (pool_is_shared_by_struct_name d1 d2 (Sample.req 1) (Sample.req 2)
              Sample.heap0 eq_refl eq_refl)
    as ((p & _ & _ & _ & o & s2 & Hget & _ & Hv) & _ & Hmiss).
  split.
  - exists o, s2. split; [exact Hget | exact Hv].
  - exact (Hmiss eq_refl).
Defined.

Lemma lifecycle_hook_bound_by_name_only_witness :
  oType Sample.userPtr = TPtr Sample.userT /\
  parsePattern "/user/start" = inl ("default", "ALL", "/user/start") /\
  doBindMultiObject "/user/start" Sample.userPtr "Init" [] "" = Bound ∅ [] /\
  exists it,
    doBindMultiObjectMethod "/user/start" Sample.userPtr "Init" [] ""
    = Bound {[ "/user/start" := it ]} [] /\
    dMethod (itemFunc it) = "Init".
Proof.
  split; [reflexivity|]. split; [reflexivity|].
  destruct (@lifecycle_hook_bound_by_name_only Sample.env "/user/start" Sample.userPtr
              [] "" Sample.userT "default" "ALL" "/user/start" "Init"
              (Sample.meth "Init" SigHandler Sample.nop)
              eq_refl eq_refl (or_introl eq_refl) eq_refl eq_refl)
    as (Hwhole & it & Hone & Hf & _).
  split; [exact Hwhole|]. exists it. split; [exact Hone|]. by rewrite Hf.
Defined.
